(** * kube-insight-logserver: query splitter, store, writer pool, validators

    A shallow embedding of the Go sources of the log server and the
    properties its specification states about them.

    Conventions of the embedding.
    - A Go [time.Time] is a record of the instant it denotes (nanoseconds
      since the zero time, January 1, year 1, 00:00:00 UTC, as an unbounded
      integer) and of its [*Location].  The monotonic clock reading is left
      out: every comparison below is preceded by [Truncate] or goes through
      [Before]/[IsZero], all of which ignore it.  Instants stay far from the
      64-bit seconds range of the Go representation for every timestamp that
      RFC 3339 can write (years 0 to 9999), so no wrap-around is modelled.
    - Go's [int] is a 64-bit integer; the [int] values read by the embedded
      code are only compared with constants, so they are plain integers.
      The [int64] request counter of the metrics is incremented, and wraps.
    - A Go [error] is a value of the type [error] below; the nil error is
      [None].  A function that can panic or block returns an [outcome].
    - Channels live in an explicit store; goroutines of the writer pool run
      when the submitting goroutine has to wait for them.
*)

From Stdlib Require Import ZArith QArith List String Ascii Lia Bool.
From Stdlib Require Import DecimalString Sorting.Sorted.
From stdpp Require Import base decidable option list gmap strings fin_maps sorting.
From Equations Require Import Equations.
Import ListNotations.

Local Open Scope Z_scope.
Local Open Scope list_scope.

(** ** Go values shared by the packages *)

Module Go.

(** The concrete error types of the repository. [errorString] is what
    [fmt.Errorf] builds. *)
Inductive error :=
| errorString (text : string)
| OptionError (Message : string)
| InsertError (cause : error)
| QueryError (message : string) (cause : error)
| SchemaError (message : string) (cause : error)
| ApiQueryError (text : string).

(** The [Error()] method of each type. *)
Fixpoint Error (e : error) : string :=
  match e with
  | errorString text => text
  | OptionError Message => "invalid cassandra options: " +:+ Message
  | InsertError cause => "insert failed: " +:+ Error cause
  | QueryError message cause =>
      "query failed: " +:+ message +:+ ": " +:+ Error cause
  | SchemaError message cause =>
      "schema creation failed: " +:+ message +:+ ": " +:+ Error cause
  | ApiQueryError text => text
  end.

(** A [(value, error)] pair of results. *)
Inductive result (A : Type) :=
| Ok (a : A)
| Err (e : error).
Arguments Ok {A} a.
Arguments Err {A} e.

(** What a call does: return, panic, or wait for ever on a channel. *)
Inductive outcome (A : Type) :=
| Returned (a : A)
| Panicked (msg : string)
| Blocked.
Arguments Returned {A} a.
Arguments Panicked {A} msg.
Arguments Blocked {A}.

Definition bind {A B : Type} (o : outcome A) (k : A -> outcome B) : outcome B :=
  match o with
  | Returned a => k a
  | Panicked msg => Panicked msg
  | Blocked => Blocked
  end.

(** [strconv.Itoa] and the verb [%d]. *)
Definition Itoa (n : Z) : string := NilZero.string_of_int (Z.to_int n).

(** [int64] arithmetic wraps around. *)
Definition wrap64 (z : Z) : Z := (z + 2 ^ 63) mod 2 ^ 64 - 2 ^ 63.

End Go.

Notation "'run' x '<~' o 'in' k" := (Go.bind o (fun x => k))
  (at level 10, x pattern, o at level 100, k at level 200).

(** ** package time (the part the server uses) *)

Module GoTime.

(** [time.Duration]: a count of nanoseconds. *)
Definition Duration := Z.
Definition Nanosecond : Duration := 1.
Definition Second : Duration := 1000000000.
Definition Hour : Duration := 3600 * Second.

(** [*time.Location].  UTC is the nil pointer; any other zone is a pointer
    (its address is all that Go's [==] looks at) to a zone with an offset in
    seconds east of UTC. *)
Inductive Location :=
| UTC
| Zone (addr : positive) (offset : Z).

Definition Location_eqb (l1 l2 : Location) : bool :=
  match l1, l2 with
  | UTC, UTC => true
  | Zone a1 _, Zone a2 _ => Pos.eqb a1 a2
  | _, _ => false
  end.

Definition zoneOffset (l : Location) : Z :=
  match l with UTC => 0 | Zone _ o => o end.

Record Time := mkTime { instant : Z; loc : Location }.

(** The zero value [time.Time{}]. *)
Definition zeroTime : Time := mkTime 0 UTC.

Definition IsZero (t : Time) : bool := instant t =? 0.
Definition Before (t u : Time) : bool := instant t <? instant u.

(** [t.Add(d)] keeps the location. *)
Definition Add (t : Time) (d : Duration) : Time :=
  mkTime (instant t + d) (loc t).

(** [t.Truncate(d)] rounds the absolute time down to a multiple of [d]
    since the zero time, whatever the location; [d <= 0] returns [t]. *)
Definition Truncate (t : Time) (d : Duration) : Time :=
  if d <=? 0 then t else mkTime (instant t - instant t mod d) (loc t).

(** Go's [==] on two [time.Time] values that carry no monotonic reading: a
    comparison of the struct fields, that is of the instant and of the
    location pointer (package time warns about it and offers [Equal]). *)
Definition eqb (t u : Time) : bool :=
  (instant t =? instant u) && Location_eqb (loc t) (loc u).

(** [t.Format("2006-01-02")]: the calendar day of [t] as presented in its
    location.  The text YYYY-MM-DD is represented by the number of that
    day, counted from the zero time; different days print differently. *)
Definition formatDate (t : Time) : Z :=
  (instant t + zoneOffset (loc t) * Second) / (24 * Hour).

End GoTime.

(** ** pkg/logstore: the API types and their validators *)

Module logstore.
Import Go GoTime.

Record KubernetesMetadata := mkKubernetesMetadata {
  DockerID : string;
  Labels : gmap string string;
  Host : string;
  PodName : string;
  ContainerName : string;
  PodID : string;
  Namespace : string
}.

(** The field [Date float64] of the Go struct is decoded and never read; it
    is not part of the record. *)
Record LogEntry := mkLogEntry {
  Kubernetes : KubernetesMetadata;
  Log : string;
  Stream : string;
  Time_ : Time
}.

Definition LogEntry_Validate (l : LogEntry) : option error :=
  if String.eqb (Namespace (Kubernetes l)) "" then
    Some (errorString "log entry missing namespace field")
  else if String.eqb (PodName (Kubernetes l)) "" then
    Some (errorString "log entry missing pod_name field")
  else if String.eqb (ContainerName (Kubernetes l)) "" then
    Some (errorString "log entry missing container_name field")
  else if IsZero (Time_ l) then
    Some (errorString "log entry missing time field")
  else None.

Record LogRow := mkLogRow { rowTime : Time; rowLog : string }.

Record QueryResult := mkQueryResult { LogRows : list LogRow }.

Record APIError := mkAPIError { Message : string; Detail : string }.

Record Query := mkQuery {
  qNamespace : string;
  qPodName : string;
  qContainerName : string;
  StartTime : Time;
  EndTime : Time
}.

Definition Query_Validate (q : Query) : option error :=
  if String.eqb (qNamespace q) "" then
    Some (ApiQueryError "missing query parameter: namespace")
  else if String.eqb (qPodName q) "" then
    Some (ApiQueryError "missing query parameter: pod_name")
  else if String.eqb (qContainerName q) "" then
    Some (ApiQueryError "missing query parameter: container_name")
  else if IsZero (StartTime q) then
    Some (ApiQueryError "missing query parameter: start_time")
  else if IsZero (EndTime q) then
    Some (ApiQueryError "missing query parameter: end_time")
  else if negb (Before (StartTime q) (EndTime q)) then
    Some (ApiQueryError
            "query time-interval: start_time must be earlier than end_time")
  else None.

End logstore.

(** ** pkg/logstore/cassandra *)

Module cassandra.
Import Go GoTime.

(** *** options.go *)

Definition SimpleStrategy : string := "SimpleStrategy".
Definition NetworkTopologyStrategy : string := "NetworkTopologyStrategy".

(** [%s] of the slice of the two strategies prints
    [[SimpleStrategy NetworkTopologyStrategy]]. *)
Definition ReplicationStrategy_Validate (r : string) : option error :=
  if String.eqb r SimpleStrategy || String.eqb r NetworkTopologyStrategy
  then None
  else Some (errorString
               ("invalid replication strategy: must be one of "
                  +:+ "[" +:+ SimpleStrategy +:+ " "
                  +:+ NetworkTopologyStrategy +:+ "]")).

Record Options := mkOptions {
  Hosts : list string;
  CQLPort : Z;
  Keyspace : string;
  LogTableName : string;
  ReplicationStrategy : string;
  ReplicationFactors : gmap string Z;
  WriteConcurrency : Z;
  WriteBufferSize : Z
}.

(** [len] of a slice or of a map. *)
Definition len {A} (l : list A) : Z := Z.of_nat (length l).
Definition maplen (m : gmap string Z) : Z := Z.of_nat (size m).

(** The [switch] on the strategy inside [Options.Validate]. *)
Definition validateFactors (opts : Options) : option error :=
  if String.eqb (ReplicationStrategy opts) SimpleStrategy then
    if negb (maplen (ReplicationFactors opts) =? 1) then
      Some (OptionError
              "for SimpleStrategy, one single replication factor must be given")
    else
      match ReplicationFactors opts !! "cluster" with
      | None =>
          Some (OptionError
                  "for SimpleStrategy, a replication factor with key 'cluster' is required")
      | Some _ => None
      end
  else if String.eqb (ReplicationStrategy opts) NetworkTopologyStrategy then
    if maplen (ReplicationFactors opts) <? 1 then
      Some (OptionError
              "for NetworkTopologyStrategy, one replication factor must be given for each datacenter")
    else None
  else None.

Definition Options_Validate (opts : Options) : option error :=
  if len (Hosts opts) <? 1 then
    Some (OptionError "at least one cassandra host must be given")
  else if (CQLPort opts <=? 0) || (65535 <? CQLPort opts) then
    Some (OptionError "CQL port must be in range [1,65535]")
  else if String.eqb (Keyspace opts) "" then
    Some (OptionError "no keyspace given")
  else if String.eqb (LogTableName opts) "" then
    Some (OptionError "no log table name given")
  else
    match ReplicationStrategy_Validate (ReplicationStrategy opts) with
    | Some err => Some (OptionError (Error err))
    | None =>
        match validateFactors opts with
        | Some err => Some err
        | None =>
            if WriteConcurrency opts <=? 0 then
              Some (OptionError "WriteConcurrency must be a positive value")
            else if WriteBufferSize opts <=? 0 then
              Some (OptionError "WriteBufferSize must be a positive value")
            else None
        end
    end.

(** *** The query splitter *)

Record timePeriod := mkPeriod { start : Time; end_ : Time }.

(** [date(t)]: [t.Truncate(24 * time.Hour)]. *)
Definition date (t : Time) : Time := Truncate t (24 * Hour).

(** Number of date borders between [t] and [u]: the bound of the loop. *)
Definition daysBetween (t u : Time) : Z :=
  (instant (date u) - instant (date t)) / (24 * Hour).

(** The [for date(t).Before(date(p.end))] loop of [divideByDays]: [pend] is
    [p.end], [t] the loop variable, [dayPeriods] the slice built so far. *)
Equations? daysLoop (pend t : Time) (dayPeriods : list timePeriod)
  : list timePeriod by wf (Z.to_nat (daysBetween t pend)) lt :=
daysLoop pend t dayPeriods
  with sumbool_of_bool (Before (date t) (date pend)) => {
  | left Hlt =>
      let dayStart := t in
      let dayEnd := Add (Add (date t) (24 * Hour)) (-1 * Nanosecond) in
      daysLoop pend (Add (date t) (24 * Hour))
               (dayPeriods ++ [mkPeriod dayStart dayEnd]);
  | right Hge => dayPeriods }.
Proof.
  unfold daysBetween, date, Truncate, Before, Add, Hour, Second in *.
  simpl in *. apply Z.ltb_lt in Hlt.
  set (D := 24 * (3600 * 1000000000)) in *.
  assert (HD : 0 < D) by (subst D; lia).
  pose proof (Z_div_mod_eq_full (instant t) D) as Et.
  pose proof (Z_div_mod_eq_full (instant pend) D) as Ep.
  replace (instant t - instant t mod D + D)
    with ((instant t / D + 1) * D) by lia.
  rewrite Z_mod_mult, Z.sub_0_r.
  replace (instant pend - instant pend mod D)
    with ((instant pend / D) * D) in * by lia.
  replace (instant t - instant t mod D)
    with ((instant t / D) * D) in * by lia.
  rewrite <- !Z.mul_sub_distr_r, !Z_div_mult by lia.
  assert (instant t / D < instant pend / D) by nia.
  lia.
Qed.

Definition divideByDays (p : timePeriod) : list timePeriod :=
  if eqb (date (start p)) (date (end_ p)) then [p]
  else
    let dayPeriods := daysLoop (end_ p) (start p) [] in
    dayPeriods ++ [mkPeriod (date (end_ p)) (end_ p)].

(** [querySplitter.Split]: one sub-query per day period, with the
    identifying fields of the wrapped query. *)
Definition Split (s : logstore.Query) : list logstore.Query :=
  let queryDays :=
    divideByDays (mkPeriod (logstore.StartTime s) (logstore.EndTime s)) in
  map (fun queryDay =>
         logstore.mkQuery (logstore.qNamespace s) (logstore.qPodName s)
                          (logstore.qContainerName s)
                          (start queryDay) (end_ queryDay))
      queryDays.

(** The periods that the loop emits for [n] date borders from [t] on. *)
Fixpoint dayChain (t : Time) (n : nat) : list timePeriod :=
  match n with
  | O => []
  | S k => mkPeriod t (Add (Add (date t) (24 * Hour)) (-1 * Nanosecond))
             :: dayChain (Add (date t) (24 * Hour)) k
  end.

(** *** driver.go *)

(** The values of type [interface{}] that are bound to a statement or found
    in a row. [DateValue] is the text that [formatDate] stands for. *)
Inductive value :=
| StringValue (s : string)
| TimeValue (t : Time)
| DateValue (day : Z)
| LabelsValue (m : gmap string string).

(** *** writerpool.go *)

Record cqlInsert := mkInsert {
  insertStatement : string;
  placeholders : list value
}.

(** A [writeResultChan] is the address of a one-slot channel in the store of
    the [World] below. *)
Record insertOperation := mkOperation {
  insert : cqlInsert;
  resultChan : nat
}.

(** A writer is known by its [stopChan], a channel that is only ever closed:
    [true] when closed. Its [workChan] and driver are those of the pool. *)
Record writer := mkWriter { stopChan : bool }.

(** [workChan] holds the buffered operations, oldest first, and has the
    capacity [workChanCap]. *)
Record writerPool := mkPool {
  workChan : list insertOperation;
  workChanCap : Z;
  writers : list writer;
  started : bool
}.

(** The pool, the buffers of the result channels made so far (a channel is
    its index), and the receive operations done on them, oldest first. *)
Record World := mkWorld {
  pool : writerPool;
  resultChans : list (list (option error));
  received : list nat
}.

Definition newWriter : writer := mkWriter false.

Definition newWriterPool (numWriters bufferSize : Z) : outcome writerPool :=
  if bufferSize <? 0 then Panicked "makechan: size out of range"
  else if numWriters <? 0 then Panicked "makeslice: len out of range"
  else Returned (mkPool [] bufferSize
                        (repeat newWriter (Z.to_nat numWriters)) true).

(** [writer.stop]: [close(w.stopChan)]; closing a closed channel panics. *)
Definition writer_stop (w : writer) : outcome writer :=
  if stopChan w then Panicked "close of closed channel"
  else Returned (mkWriter true).

(** The [for _, writer := range pool.writers] loop of [writerPool.stop]. *)
Fixpoint stopWriters (ws : list writer) : outcome (list writer) :=
  match ws with
  | [] => Returned []
  | w :: rest =>
      run w' <~ writer_stop w in
      run rest' <~ stopWriters rest in
      Returned (w' :: rest')
  end.

Definition writerPool_stop (p : writerPool) : outcome writerPool :=
  run ws <~ stopWriters (writers p) in
  Returned (mkPool (workChan p) (workChanCap p) ws false).

(** Some writer goroutine is still in its loop. *)
Definition anyRunning (p : writerPool) : bool :=
  existsb (fun w => negb (stopChan w)) (writers p).

Section Driver.

(** The driver behind the store: what [Execute] and [Query] answer to a
    statement and its arguments. *)
Variable Execute : string -> list value -> option error.
Variable DriverQuery :
  string -> list value -> result (list (gmap string value)).

(** One turn of [writer.start] for the operation [op]: execute it and send
    the result on its channel. The send waits when the slot is taken. *)
Definition serve (op : insertOperation)
    (chans : list (list (option error)))
  : outcome (list (list (option error))) :=
  match chans !! resultChan op with
  | Some [] =>
      Returned (<[resultChan op :=
                    [Execute (insertStatement (insert op))
                             (placeholders (insert op))]]> chans)
  | _ => Blocked
  end.

(** The writers take operations off the queue, oldest first, up to the one
    that answers on [ch]. *)
Fixpoint serveUntil (ch : nat) (queue : list insertOperation)
    (chans : list (list (option error)))
  : outcome (list insertOperation * list (list (option error))) :=
  match queue with
  | [] => Returned ([], chans)
  | op :: rest =>
      run chans' <~ serve op chans in
      if Nat.eqb (resultChan op) ch then Returned (rest, chans')
      else serveUntil ch rest chans'
  end.

(** [pool.workChan <- op]: the send returns once the operation is in the
    buffer; when the buffer is full a writer first has to take the oldest
    operation (with no buffer at all, this very one). *)
Definition sendWork (op : insertOperation) (w : World) : outcome World :=
  let p := pool w in
  let queue := workChan p ++ [op] in
  if len queue <=? workChanCap p then
    Returned (mkWorld (mkPool queue (workChanCap p) (writers p) (started p))
                      (resultChans w) (received w))
  else if anyRunning p then
    match queue with
    | [] => Blocked
    | oldest :: rest =>
        run chans <~ serve oldest (resultChans w) in
        Returned (mkWorld (mkPool rest (workChanCap p) (writers p) (started p))
                          chans (received w))
    end
  else Blocked.

Definition writerPool_write (insertStatement : string)
    (placeholders : list value) (w : World) : outcome (nat * World) :=
  let resultChan := length (resultChans w) in
  if negb (started (pool w)) then
    Returned (resultChan,
              mkWorld (pool w)
                (resultChans w ++
                   [[Some (errorString
                             "write rejected: writerPool has been stopped")]])
                (received w))
  else
    let insertRequest :=
      mkOperation (mkInsert insertStatement placeholders) resultChan in
    run w' <~ sendWork insertRequest
                (mkWorld (pool w) (resultChans w ++ [[]]) (received w)) in
    Returned (resultChan, w').

(** [<-resultChannel]: take the value in the slot; when the slot is empty,
    wait for the writers to get to the operation that fills it. A channel
    that nothing will ever fill blocks. *)
Definition takeSlot (ch : nat) (w : World) : outcome (option error * World) :=
  match resultChans w !! ch with
  | Some (v :: slot) =>
      Returned (v, mkWorld (pool w) (<[ch := slot]> (resultChans w))
                           (received w ++ [ch]))
  | _ => Blocked
  end.

Definition receive (ch : nat) (w : World) : outcome (option error * World) :=
  match resultChans w !! ch with
  | Some [] =>
      if anyRunning (pool w) then
        run (queue, chans) <~ serveUntil ch (workChan (pool w))
                                 (resultChans w) in
        takeSlot ch
          (mkWorld (mkPool queue (workChanCap (pool w)) (writers (pool w))
                           (started (pool w)))
                   chans (received w))
      else Blocked
  | _ => takeSlot ch w
  end.

(** *** logstore.go *)

Definition LogStore_insertStatement (options : Options) : string :=
  "INSERT INTO " +:+ Keyspace options +:+ "." +:+ LogTableName options
    +:+ " "
    +:+ "(namespace, pod_name, container_name, date, time, message, stream, pod_id, docker_id, host, labels) "
    +:+ "VALUES (?, ?, ?, ?, ?, ?, ?, ?, ?, ?, ?)".

Definition insertArgs (logEntry : logstore.LogEntry) : list value :=
  let podMeta := logstore.Kubernetes logEntry in
  let date := formatDate (logstore.Time_ logEntry) in
  [StringValue (logstore.Namespace podMeta);
   StringValue (logstore.PodName podMeta);
   StringValue (logstore.ContainerName podMeta);
   DateValue date; TimeValue (logstore.Time_ logEntry);
   StringValue (logstore.Log logEntry);
   StringValue (logstore.Stream logEntry);
   StringValue (logstore.PodID podMeta);
   StringValue (logstore.DockerID podMeta);
   StringValue (logstore.Host podMeta);
   LabelsValue (logstore.Labels podMeta)].

Definition LogStore_insert (options : Options)
    (logEntry : logstore.LogEntry) (w : World) : outcome (nat * World) :=
  writerPool_write (LogStore_insertStatement options) (insertArgs logEntry) w.

(** First loop of [Write]: one insert per entry. *)
Fixpoint submitAll (options : Options) (entries : list logstore.LogEntry)
    (w : World) : outcome (list nat * World) :=
  match entries with
  | [] => Returned ([], w)
  | logEntry :: rest =>
      run (ch, w1) <~ LogStore_insert options logEntry w in
      run (chs, w2) <~ submitAll options rest w1 in
      Returned (ch :: chs, w2)
  end.

(** Second loop of [Write]: receive from each channel, return at the first
    error. *)
Fixpoint awaitAll (resultChannels : list nat) (w : World)
  : outcome (option error * World) :=
  match resultChannels with
  | [] => Returned (None, w)
  | resultChannel :: rest =>
      run (err, w1) <~ receive resultChannel w in
      match err with
      | Some e => Returned (Some (InsertError e), w1)
      | None => awaitAll rest w1
      end
  end.

Definition LogStore_Write (options : Options)
    (entries : list logstore.LogEntry) (w : World)
  : outcome (option error * World) :=
  run (resultChannels, w1) <~ submitAll options entries w in
  awaitAll resultChannels w1.

Definition logQueryStatement (options : Options) : string :=
  "SELECT time, message " +:+
  "FROM " +:+ Keyspace options +:+ "." +:+ LogTableName options +:+ " WHERE" +:+
  "(namespace=?) AND " +:+
  "(pod_name=?) AND " +:+
  "(container_name=?) AND " +:+
  "(date=?) AND " +:+
  "(time >= ?) AND " +:+
  "(time <= ?) " +:+
  "ORDER BY time ASC".

(** The body of the loop over the rows: the two type assertions panic on a
    missing column or on a value of another type. *)
Definition toLogRow (logRow : gmap string value) : outcome logstore.LogRow :=
  match logRow !! "time" with
  | Some (TimeValue time) =>
      match logRow !! "message" with
      | Some (StringValue log) => Returned (logstore.mkLogRow time log)
      | _ => Panicked "interface conversion: interface {} is not string"
      end
  | _ => Panicked "interface conversion: interface {} is not time.Time"
  end.

Fixpoint toLogRows (results : list (gmap string value))
  : outcome (list logstore.LogRow) :=
  match results with
  | [] => Returned []
  | logRow :: rest =>
      run r <~ toLogRow logRow in
      run rs <~ toLogRows rest in
      Returned (r :: rs)
  end.

Definition queryArgs (query : logstore.Query) : list value :=
  let date := formatDate (logstore.StartTime query) in
  [StringValue (logstore.qNamespace query);
   StringValue (logstore.qPodName query);
   StringValue (logstore.qContainerName query);
   DateValue date;
   TimeValue (logstore.StartTime query);
   TimeValue (logstore.EndTime query)].

Definition executeQuery (options : Options) (query : logstore.Query)
  : outcome (result (list logstore.LogRow)) :=
  match DriverQuery (logQueryStatement options) (queryArgs query) with
  | Err err => Returned (Err err)
  | Ok results =>
      run logRows <~ toLogRows results in
      Returned (Ok logRows)
  end.

(** The loop of [Query] over the sub-queries. *)
Fixpoint queryLoop (options : Options) (subQueries : list logstore.Query)
    (logRows : list logstore.LogRow)
  : outcome (result (list logstore.LogRow)) :=
  match subQueries with
  | [] => Returned (Ok logRows)
  | subQuery :: rest =>
      run r <~ executeQuery options subQuery in
      match r with
      | Err err => Returned (Err (QueryError "query execution" err))
      | Ok rows => queryLoop options rest (logRows ++ rows)
      end
  end.

Definition LogStore_Query (options : Options) (query : logstore.Query)
  : outcome (result logstore.QueryResult) :=
  let subQueries := Split query in
  run r <~ queryLoop options subQueries [] in
  match r with
  | Err err => Returned (Err err)
  | Ok logRows => Returned (Ok (logstore.mkQueryResult logRows))
  end.

End Driver.

End cassandra.

(** ** pkg/server *)

Module server.
Import Go GoTime.

(** *** metrics.go *)

Record MetricDimensions := mkDimensions {
  Method : string;
  Path : string;
  StatusCode : Z
}.

#[global] Instance MetricDimensions_eq_dec : EqDecision MetricDimensions.
Proof. solve_decision. Defined.

#[global] Instance MetricDimensions_countable : Countable MetricDimensions.
Proof.
  refine (inj_countable'
            (fun d => (Method d, Path d, StatusCode d))
            (fun t => mkDimensions t.1.1 t.1.2 t.2) _).
  intros []; reflexivity.
Defined.

Section Metrics.

(** [float64] and the operations that the middleware uses on it: the
    constant 0, [+], [/] and the conversion of an [int64]. *)
Variable float64 : Type.
Variable fzero : float64.
Variable fadd : float64 -> float64 -> float64.
Variable fdiv : float64 -> float64 -> float64.
Variable float64_of_int64 : Z -> float64.

Record MetricsMiddleware := mkMetrics {
  TotalRequests : gmap MetricDimensions Z;
  SumResponseTime : gmap MetricDimensions float64;
  AvgResponseTime : gmap MetricDimensions float64
}.

Definition NewMetricsMiddleware : MetricsMiddleware := mkMetrics ∅ ∅ ∅.

(** What the interceptor has seen of a request when its handler returns:
    the method, the path of the parsed request URI, the status code held by
    the wrapped response writer, and the seconds elapsed. *)
Record Completion := mkCompletion {
  reqMethod : string;
  reqPath : string;
  wwStatusCode : Z;
  elapsed : float64
}.

Definition dimensions (c : Completion) : MetricDimensions :=
  mkDimensions (reqMethod c) (reqPath c) (wwStatusCode c).

(** The part of [Intercept] that runs under [updateMutex]. *)
Definition Intercept (mw : MetricsMiddleware) (c : Completion)
  : MetricsMiddleware :=
  let metricDim := dimensions c in
  let total0 :=
    match TotalRequests mw !! metricDim with
    | Some _ => TotalRequests mw
    | None => <[metricDim := 0]> (TotalRequests mw)
    end in
  let total :=
    <[metricDim := wrap64 (default 0 (total0 !! metricDim) + 1)]> total0 in
  let sum0 :=
    match SumResponseTime mw !! metricDim with
    | Some _ => SumResponseTime mw
    | None => <[metricDim := fzero]> (SumResponseTime mw)
    end in
  let sum :=
    <[metricDim := fadd (default fzero (sum0 !! metricDim)) (elapsed c)]>
      sum0 in
  let avg :=
    <[metricDim := fdiv (default fzero (sum !! metricDim))
                        (float64_of_int64 (default 0 (total !! metricDim)))]>
      (AvgResponseTime mw) in
  mkMetrics total sum avg.

(** The middleware after a sequence of completed requests, oldest first. *)
Definition observeAll (mw : MetricsMiddleware) (cs : list Completion)
  : MetricsMiddleware :=
  fold_left Intercept cs mw.

(** The completions of [cs] with the dimensions [d], oldest first. *)
Definition withDimensions (d : MetricDimensions) (cs : list Completion)
  : list Completion :=
  List.filter (fun c => bool_decide (dimensions c = d)) cs.

End Metrics.

(** *** http.go *)

(** The part of a request that [GET /query] reads: [r.URL.Query()], the
    values of each parameter in the order of the URL. *)
Record Request := mkRequest { URLQuery : gmap string (list string) }.

Definition getQueryParam (paramName : string) (r : Request)
  : result string :=
  match URLQuery r !! paramName with
  | None => Err (errorString ("missing query parameter: " +:+ paramName))
  | Some paramValues =>
      if negb (cassandra.len paramValues =? 1) then
        Err (errorString
               ("query parameter " +:+ paramName
                  +:+ " has wrong number of values: was: "
                  +:+ Itoa (cassandra.len paramValues)
                  +:+ ", expected: " +:+ Itoa 1))
      else
        match paramValues with
        | v :: _ => Ok v
        | [] => Ok ""
        end
  end.

(** A response: the status written, the [Content-Type] header and the JSON
    value that is marshalled into the body. *)
Inductive Body :=
| ErrorBody (e : logstore.APIError)
| RowsBody (rows : logstore.QueryResult).

Record Response := mkResponse {
  statusCode : Z;
  contentType : string;
  body : Body
}.

Definition StatusOK : Z := 200.
Definition StatusBadRequest : Z := 400.
Definition StatusInternalServerError : Z := 500.
Definition StatusServiceUnavailable : Z := 503.

(** [json.Marshal] of two strings does not fail. *)
Definition errorResponse (statusCode : Z) (errorMsg : logstore.APIError)
  : Response :=
  mkResponse statusCode "application/json" (ErrorBody errorMsg).

(** The calls that a handler makes on its [LogStore]. *)
Inductive StoreCall :=
| CallReady
| CallQuery (query : logstore.Query).

(** The [logstore.LogStore] behind the server: what [Ready] and [Query]
    answer. *)
Record LogStore := mkLogStore {
  Ready : bool * option error;
  Query : logstore.Query -> result logstore.QueryResult
}.

Section Handlers.

(** [time.Parse(time.RFC3339Nano, s)], [None] for a parse error, and the
    value of [time.Now().UTC()] when the request is served. *)
Variable Parse : string -> option Time.
Variable now : Time.

Definition queryFromRequest (r : Request) : result logstore.Query :=
  match getQueryParam "namespace" r with
  | Err err => Err err
  | Ok namespace =>
  match getQueryParam "pod_name" r with
  | Err err => Err err
  | Ok podName =>
  match getQueryParam "container_name" r with
  | Err err => Err err
  | Ok containerName =>
  match getQueryParam "start_time" r with
  | Err err => Err err
  | Ok startTimeStr =>
  match Parse startTimeStr with
  | None => Err (errorString "failed to parse start_time")
  | Some startTime =>
      match getQueryParam "end_time" r with
      | Err _ =>
          Ok (logstore.mkQuery namespace podName containerName startTime now)
      | Ok endTimeStr =>
          match Parse endTimeStr with
          | None => Err (errorString "failed to parse end_time")
          | Some endTime =>
              Ok (logstore.mkQuery namespace podName containerName
                                   startTime endTime)
          end
      end
  end end end end end.

(** [queryGetHandler]: the response written and the calls made on the
    store, oldest first. *)
Definition queryGetHandler (s : LogStore) (r : Request)
  : Response * list StoreCall :=
  match queryFromRequest r with
  | Err err =>
      (errorResponse StatusBadRequest
                     (logstore.mkAPIError "invalid query" (Error err)), [])
  | Ok query =>
      match logstore.Query_Validate query with
      | Some err =>
          (errorResponse StatusBadRequest
                         (logstore.mkAPIError "invalid query" (Error err)), [])
      | None =>
          match snd (Ready s) with
          | Some err =>
              (errorResponse StatusServiceUnavailable
                 (logstore.mkAPIError "data store is not ready" (Error err)),
               [CallReady])
          | None =>
              match Query s query with
              | Err err =>
                  (errorResponse StatusInternalServerError
                     (logstore.mkAPIError "query execution error" (Error err)),
                   [CallReady; CallQuery query])
              | Ok rows =>
                  (mkResponse StatusOK "application/json" (RowsBody rows),
                   [CallReady; CallQuery query])
              end
          end
      end
  end.

End Handlers.

End server.

(** ** Vocabulary of the specification *)

Module Spec.
Import Go GoTime cassandra.

(** The first of a list of named checks that fails. *)
Definition firstFailing (checks : list (string * bool)) : option string :=
  match List.find (fun c => negb (snd c)) checks with
  | Some (name, _) => Some name
  | None => None
  end.

(** The checks on a log entry and on a query, in the order of the
    specification: the name of the field and whether it is present. *)
Definition entryChecks (l : logstore.LogEntry) : list (string * bool) :=
  [("namespace",
    negb (String.eqb (logstore.Namespace (logstore.Kubernetes l)) ""));
   ("pod_name",
    negb (String.eqb (logstore.PodName (logstore.Kubernetes l)) ""));
   ("container_name",
    negb (String.eqb (logstore.ContainerName (logstore.Kubernetes l)) ""));
   ("time", negb (instant (logstore.Time_ l) =? 0))].

Definition queryChecks (q : logstore.Query) : list (string * bool) :=
  [("namespace", negb (String.eqb (logstore.qNamespace q) ""));
   ("pod_name", negb (String.eqb (logstore.qPodName q) ""));
   ("container_name", negb (String.eqb (logstore.qContainerName q) ""));
   ("start_time", negb (instant (logstore.StartTime q) =? 0));
   ("end_time", negb (instant (logstore.EndTime q) =? 0))].

(** The constraints on the options, in the order of the specification: the
    message of the constraint and whether it holds. *)
Definition optionChecks (opts : Options) : list (string * bool) :=
  let simple := String.eqb (ReplicationStrategy opts) "SimpleStrategy" in
  let network :=
    String.eqb (ReplicationStrategy opts) "NetworkTopologyStrategy" in
  let factors := Z.of_nat (size (ReplicationFactors opts)) in
  [("at least one cassandra host must be given",
    1 <=? Z.of_nat (length (Hosts opts)));
   ("CQL port must be in range [1,65535]",
    (1 <=? CQLPort opts) && (CQLPort opts <=? 65535));
   ("no keyspace given", negb (String.eqb (Keyspace opts) ""));
   ("no log table name given", negb (String.eqb (LogTableName opts) ""));
   ("invalid replication strategy: must be one of [SimpleStrategy NetworkTopologyStrategy]",
    simple || network);
   ("for SimpleStrategy, one single replication factor must be given",
    implb simple (factors =? 1));
   ("for SimpleStrategy, a replication factor with key 'cluster' is required",
    implb simple (bool_decide (is_Some (ReplicationFactors opts !! "cluster"))));
   ("for NetworkTopologyStrategy, one replication factor must be given for each datacenter",
    implb network (1 <=? factors));
   ("WriteConcurrency must be a positive value", 1 <=? WriteConcurrency opts);
   ("WriteBufferSize must be a positive value", 1 <=? WriteBufferSize opts)].

(** Options that satisfy every constraint. *)
Definition validOptions (opts : Options) : Prop :=
  Hosts opts <> [] /\
  1 <= CQLPort opts <= 65535 /\
  Keyspace opts <> "" /\
  LogTableName opts <> "" /\
  (ReplicationStrategy opts = "SimpleStrategy" /\
   size (ReplicationFactors opts) = 1%nat /\
   is_Some (ReplicationFactors opts !! "cluster")
   \/
   ReplicationStrategy opts = "NetworkTopologyStrategy" /\
   (1 <= size (ReplicationFactors opts))%nat) /\
  1 <= WriteConcurrency opts /\
  1 <= WriteBufferSize opts.

(** The parameters that [GET /query] requires, in the order in which they
    are read, and those read before [name]. *)
Definition requiredParams : list string :=
  ["namespace"; "pod_name"; "container_name"; "start_time"].

Fixpoint readBefore (name : string) (params : list string) : list string :=
  match params with
  | [] => []
  | p :: rest => if String.eqb p name then [] else p :: readBefore name rest
  end.

Definition wrongNumberOfValues (name : string) (n : nat) : error :=
  errorString ("query parameter " +:+ name
                 +:+ " has wrong number of values: was: "
                 +:+ Itoa (Z.of_nat n) +:+ ", expected: 1").

(** A list of day periods, as the specification describes the split of
    [[s, e]]. *)
Definition inPeriod (x : Z) (q : timePeriod) : Prop :=
  instant (start q) <= x <= instant (end_ q).

Definition endsItsDay (q : timePeriod) : Prop :=
  end_ q = Add (Add (date (start q)) (24 * Hour)) (-1 * Nanosecond).

Definition startsItsDay (q : timePeriod) : Prop :=
  start q = date (start q).

(** Each period ends before every later one starts. *)
Definition chronological (ps : list timePeriod) : Prop :=
  StronglySorted (fun q r => instant (end_ q) < instant (start r)) ps.

Record splitsByDays (s e : Time) (ps : list timePeriod) : Prop := {
  split_count : Z.of_nat (length ps) = daysBetween s e + 1;
  split_first : exists q, ps !! 0%nat = Some q /\ start q = s;
  split_last : exists q, last ps = Some q /\ end_ q = e;
  split_ends : forall i q,
      ps !! i = Some q -> (S i < length ps)%nat -> endsItsDay q;
  split_starts : forall i q, ps !! S i = Some q -> startsItsDay q;
  split_adjacent : forall i q r,
      ps !! i = Some q -> ps !! S i = Some r ->
      instant (start r) = instant (end_ q) + 1;
  split_union : forall x, Exists (inPeriod x) ps <-> instant s <= x <= instant e;
  split_disjoint : chronological ps
}.

(** The time window of a query. *)
Definition window (q : logstore.Query) : timePeriod :=
  mkPeriod (logstore.StartTime q) (logstore.EndTime q).

(** Rows in ascending order of time, and rows within a window. *)
Definition ascending (rows : list logstore.LogRow) : Prop :=
  StronglySorted
    (fun a b => instant (logstore.rowTime a) <= instant (logstore.rowTime b))
    rows.

Definition withinWindow (sub : logstore.Query) (rows : list logstore.LogRow)
  : Prop :=
  Forall (fun r => inPeriod (instant (logstore.rowTime r)) (window sub)) rows.

(** The driver answers the sub-query [sub] with the rows [rows]. *)
Definition answers
    (DriverQuery : string -> list value -> result (list (gmap string value)))
    (options : Options) (sub : logstore.Query) (rows : list logstore.LogRow)
  : Prop :=
  exists results,
    DriverQuery (logQueryStatement options) (queryArgs sub) = Ok results /\
    toLogRows results = Returned rows.

(** 2018-01-01T00:00:00Z, in seconds since the zero time. *)
Definition newYear2018 : Z := 63650361600.

(** 2018-01-01T13:00:00+01:00, as [time.Parse] returns it: the location is
    not the UTC location. *)
Definition noonInZone : Time :=
  mkTime (newYear2018 * Second + 12 * Hour) (Zone 1 3600).

(** 2018-01-01T13:00:00Z. *)
Definition oneUTC : Time :=
  mkTime (newYear2018 * Second + 13 * Hour) UTC.

(** 2018-01-01T23:59:00Z and 2018-01-02T00:01:00Z: the query of the
    specification that crosses one date border, with the rows that the
    driver holds for the two days. *)
Definition beforeMidnight : Time :=
  mkTime (newYear2018 * Second + 24 * Hour - 60 * Second) UTC.

Definition afterMidnight : Time :=
  mkTime (newYear2018 * Second + 24 * Hour + 60 * Second) UTC.

Definition borderQuery : logstore.Query :=
  logstore.mkQuery "ns" "nginx-abcde" "nginx" beforeMidnight afterMidnight.

Definition cqlRow (t : Time) (message : string) : gmap string value :=
  {[ "time" := TimeValue t; "message" := StringValue message ]}.

Definition borderDriver (statement : string) (args : list value)
  : result (list (gmap string value)) :=
  match args with
  | [_; _; _; DateValue day; _; _] =>
      if day =? formatDate beforeMidnight then
        Ok [cqlRow (Add beforeMidnight (10 * Second)) "event 1";
            cqlRow (Add beforeMidnight (20 * Second)) "event 2"]
      else Ok [cqlRow (Add afterMidnight (-30 * Second)) "event 3"]
  | _ => Err (errorString "bad arguments")
  end.

Definition borderRows : list (list logstore.LogRow) :=
  [[logstore.mkLogRow (Add beforeMidnight (10 * Second)) "event 1";
    logstore.mkLogRow (Add beforeMidnight (20 * Second)) "event 2"];
   [logstore.mkLogRow (Add afterMidnight (-30 * Second)) "event 3"]].

Definition someOptions : Options :=
  mkOptions ["localhost"] 9042 "ks" "log" SimpleStrategy {[ "cluster" := 1 ]}
            2 1024.

(** *** The writer pool *)

(** The error of a write on a stopped pool. *)
Definition writeRejected : error :=
  errorString "write rejected: writerPool has been stopped".

(** The operations in the work queue answer on distinct channels, whose
    slots are empty. *)
Definition queueOK (queue : list insertOperation)
    (chans : list (list (option error))) : Prop :=
  NoDup (map resultChan queue) /\
  Forall (fun op => chans !! resultChan op = Some []) queue.

(** What the operation [op] sends on its channel, and what a receive on
    the channel [ch] is going to yield: the value in its slot or else the
    answer of the operation queued for it. *)
Definition answer (Execute : string -> list value -> option error)
    (op : insertOperation) : option error :=
  Execute (insertStatement (insert op)) (placeholders (insert op)).

Definition pendingOn (Execute : string -> list value -> option error)
    (queue : list insertOperation) (chans : list (list (option error)))
    (ch : nat) : option (option error) :=
  match chans !! ch with
  | Some (v :: _) => Some v
  | Some [] =>
      match List.find (fun op => Nat.eqb (resultChan op) ch) queue with
      | Some op => Some (answer Execute op)
      | None => None
      end
  | None => None
  end.

Definition pending (Execute : string -> list value -> option error)
    (w : World) (ch : nat) : option (option error) :=
  pendingOn Execute (workChan (pool w)) (resultChans w) ch.

(** What the insert of a log entry is answered. *)
Definition yield (Execute : string -> list value -> option error)
    (options : Options) (logEntry : logstore.LogEntry) : option error :=
  Execute (LogStore_insertStatement options) (insertArgs logEntry).

(** A pool that has been started and not stopped, in a consistent world. *)
Record running (w : World) : Prop := {
  run_started : started (pool w) = true;
  run_writers : anyRunning (pool w) = true;
  run_queue : queueOK (workChan (pool w)) (resultChans w)
}.

(** The first error of a list of results, and the number of results up to
    and including it. *)
Fixpoint firstError (results : list (option error)) : option error :=
  match results with
  | [] => None
  | Some e :: _ => Some e
  | None :: rest => firstError rest
  end.

Fixpoint awaited (results : list (option error)) : nat :=
  match results with
  | [] => O
  | Some _ :: _ => 1%nat
  | None :: rest => S (awaited rest)
  end.

(** A driver that refuses every statement, two entries, and a fresh pool
    of one writer with room for one operation. *)
Definition refusing (statement : string) (args : list value) : option error :=
  Some (errorString "connection refused").

Definition entryAt (t : Time) (message : string) : logstore.LogEntry :=
  logstore.mkLogEntry
    (logstore.mkKubernetesMetadata "" ∅ "" "nginx-abcde" "nginx" "" "default")
    message "stdout" t.

Definition twoEntries : list logstore.LogEntry :=
  [entryAt oneUTC "event 1"; entryAt (Add oneUTC (60 * Second)) "event 2"].

Definition freshWorld (numWriters bufferSize : Z) : World :=
  mkWorld (mkPool [] bufferSize (repeat newWriter (Z.to_nat numWriters)) true)
          [] [].

(** *** The metrics *)

Section MetricsSpec.

Variable float64 : Type.
Variable fzero : float64.
Variable fadd : float64 -> float64 -> float64.
Variable fdiv : float64 -> float64 -> float64.
Variable float64_of_int64 : Z -> float64.

(** The sum of the elapsed times of [cs], added up in the order of the
    requests, from 0. *)
Definition sumElapsed (cs : list (server.Completion float64)) : float64 :=
  fold_left fadd (map (server.elapsed float64) cs) fzero.

(** The three entries that the specification expects for the dimensions
    [d] after the requests [cs]: none before the first request with these
    dimensions. *)
Definition expected (d : server.MetricDimensions)
    (cs : list (server.Completion float64))
  : option (Z * float64 * float64) :=
  match server.withDimensions float64 d cs with
  | [] => None
  | mine =>
      Some (Z.of_nat (length mine), sumElapsed mine,
            fdiv (sumElapsed mine) (float64_of_int64 (Z.of_nat (length mine))))
  end.

Definition entries (mw : server.MetricsMiddleware float64)
    (d : server.MetricDimensions) : option (Z * float64 * float64) :=
  match server.TotalRequests float64 mw !! d,
        server.SumResponseTime float64 mw !! d,
        server.AvgResponseTime float64 mw !! d with
  | Some total, Some sum, Some avg => Some (total, sum, avg)
  | _, _, _ => None
  end.

End MetricsSpec.

(** Three requests, with seconds as rationals. *)
Definition threeRequests : list (server.Completion Q) :=
  [server.mkCompletion Q "POST" "/write" 200 (1 # 4)%Q;
   server.mkCompletion Q "GET" "/query" 400 (1 # 100)%Q;
   server.mkCompletion Q "POST" "/write" 200 (3 # 4)%Q].

(** *** Requests *)

(** A request that gives [namespace] twice. *)
Definition twiceNamespace : server.Request :=
  server.mkRequest
    {[ "namespace" := ["default"; "kube-system"];
       "pod_name" := ["nginx-abcde"];
       "container_name" := ["nginx"];
       "start_time" := ["2018-01-01T12:00:00.000Z"] ]}.

Definition parseNothing (text : string) : option Time := None.

Definition readyStore : server.LogStore :=
  server.mkLogStore (true, None) (fun _ => Ok (logstore.mkQueryResult [])).

End Spec.

(** ** pkg/logstore/cassandra: the schema, the connection and the driver *)

Module store.
Import Go GoTime cassandra.

(** *** options.go: [ReplicationFactorMap.String] *)

(** [sort.Strings]: the strings in ascending order, compared byte by
    byte. *)
Definition sortStrings (keys : list string) : list string :=
  merge_sort String.le keys.

(** The loop over the sorted keys: [i] is the index, [buf] the buffer. A
    key that the map does not hold reads as 0. *)
Fixpoint writeFactors (r : gmap string Z) (i : nat) (keys : list string)
    (buf : string) : string :=
  match keys with
  | [] => buf
  | key :: rest =>
      let buf1 := if negb (Nat.eqb i 0) then buf +:+ ", " else buf in
      writeFactors r (S i) rest
        (buf1 +:+ ("'" +:+ key +:+ "': " +:+ Itoa (default 0 (r !! key))))
  end.

(** [ranged] is the slice that [for key := range r] fills: the keys of [r]
    in the order of the iteration, which Go does not specify. *)
Definition ReplicationFactorMap_String (ranged : list string)
    (r : gmap string Z) : string :=
  writeFactors r 0 (sortStrings ranged) "".

(** *** logstore.go: the schema *)

Definition keyspaceDeclaration (ranged : list string) (options : Options)
  : string :=
  let replicationSpec :=
    if String.eqb (ReplicationStrategy options) NetworkTopologyStrategy then
      let replFactors :=
        ReplicationFactorMap_String ranged (ReplicationFactors options) in
      "{ 'class': 'NetworkTopologyStrategy', " +:+ replFactors +:+ " }"
    else
      "{ 'class': 'SimpleStrategy', 'replication_factor': "
        +:+ Itoa (default 0 (ReplicationFactors options !! "cluster"))
        +:+ " }" in
  "CREATE KEYSPACE IF NOT EXISTS " +:+ Keyspace options
    +:+ " WITH REPLICATION = " +:+ replicationSpec.

(** The line feed and the tab of the raw string [LogTableTemplate]. *)
Definition nl : string := String (ascii_of_nat 10) EmptyString.
Definition tab : string := String (ascii_of_nat 9) EmptyString.

Definition tableDeclaration (options : Options) : string :=
  "CREATE TABLE IF NOT EXISTS " +:+ Keyspace options +:+ "."
    +:+ LogTableName options +:+ " (" +:+ nl
    +:+ tab +:+ "namespace text," +:+ nl
    +:+ tab +:+ "pod_name text," +:+ nl
    +:+ tab +:+ "container_name text," +:+ nl
    +:+ tab +:+ "date date," +:+ nl
    +:+ tab +:+ "time timestamp," +:+ nl
    +:+ tab +:+ "message text," +:+ nl
    +:+ tab +:+ "stream text," +:+ nl
    +:+ tab +:+ "pod_id text," +:+ nl
    +:+ tab +:+ "docker_id text," +:+ nl
    +:+ tab +:+ "host text," +:+ tab +:+ nl
    +:+ tab +:+ "labels map<text,text>," +:+ nl
    +:+ tab +:+ "PRIMARY KEY ((namespace, pod_name, container_name, date), time) )"
    +:+ nl
    +:+ "WITH CLUSTERING ORDER BY (time DESC)".

(** *** driver.go: the interface *)

Definition CQLRows : Type := list (gmap string value).

(** The [Driver] interface, for a driver whose state is a [D]: every method
    answers and leaves the driver in a new state. *)
Class Driver (D : Type) := {
  Driver_Connect : D -> option error * D;
  Driver_Close : D -> option error * D;
  Driver_Reachable : D -> (bool * option error) * D;
  Driver_Execute : string -> list value -> D -> option error * D;
  Driver_Query : string -> list value -> D -> result CQLRows * D
}.

(** The calls made on a driver. *)
Inductive DriverCall :=
| ConnectCall
| CloseCall
| ReachableCall
| ExecuteCall (statement : string) (placeholders : list value)
| QueryCall (query : string) (placeholders : list value).

(** A driver that keeps the list of the calls made on it, oldest first, and
    passes each one on to the driver it wraps. *)
#[global] Instance recording {D : Type} `{Driver D}
  : Driver (D * list DriverCall) := {
  Driver_Connect s :=
    let (r, d) := Driver_Connect (fst s) in (r, (d, snd s ++ [ConnectCall]));
  Driver_Close s :=
    let (r, d) := Driver_Close (fst s) in (r, (d, snd s ++ [CloseCall]));
  Driver_Reachable s :=
    let (r, d) := Driver_Reachable (fst s) in
    (r, (d, snd s ++ [ReachableCall]));
  Driver_Execute statement placeholders s :=
    let (r, d) := Driver_Execute statement placeholders (fst s) in
    (r, (d, snd s ++ [ExecuteCall statement placeholders]));
  Driver_Query query placeholders s :=
    let (r, d) := Driver_Query query placeholders (fst s) in
    (r, (d, snd s ++ [QueryCall query placeholders]))
}.

(** *** logstore.go: the life cycle of the store *)


Section Store.

Context {D : Type} `{Driver D}.

(** The two statements are executed without placeholders. *)
Definition createKeyspaceIfNotExists (ranged : list string)
    (options : Options) (d : D) : option error * D :=
  Driver_Execute (keyspaceDeclaration ranged options) [] d.

Definition createTableIfNotExists (options : Options) (d : D)
  : option error * D :=
  Driver_Execute (tableDeclaration options) [] d.

Definition createSchemaIfNotExists (ranged : list string)
    (options : Options) (d : D) : option error * D :=
  let (err, d1) := createKeyspaceIfNotExists ranged options d in
  match err with
  | Some err => (Some (SchemaError "failed to create keyspace" err), d1)
  | None =>
      let (err, d2) := createTableIfNotExists options d1 in
      match err with
      | Some err => (Some (SchemaError "failed to create log table" err), d2)
      | None => (None, d2)
      end
  end.

Definition LogStore_Connect (ranged : list string) (options : Options)
    (d : D) : option error * D :=
  let (err, d1) := Driver_Connect d in
  match err with
  | Some err => (Some err, d1)
  | None => createSchemaIfNotExists ranged options d1
  end.

(** [Disconnect]: the pool is stopped first; when that panics the driver is
    not closed. *)
Definition LogStore_Disconnect (d : D) (w : World)
  : outcome (option error * D * World) :=
  run p <~ writerPool_stop (pool w) in
  let (err, d1) := Driver_Close d in
  Returned (err, d1, mkWorld p (resultChans w) (received w)).

Definition LogStore_Ready (d : D) : (bool * option error) * D :=
  Driver_Reachable d.

End Store.

(** *** driver.go: the gocql driver *)

Section CQL.

(** gocql: the cluster settings, the sessions, what [CreateSession] returns
    (a session or else an error with a nil session), and what a statement
    run on a session answers: the error of [Exec], the rows or the error of
    [Iter().SliceMap()], the error of [Iter().Close()]. *)
Variable ClusterConfig Session : Type.
Variable CreateSession : ClusterConfig -> result Session.
Variable Exec : Session -> string -> list value -> option error.
Variable SliceMap : Session -> string -> list value -> result CQLRows.
Variable IterClose : Session -> string -> list value -> option error.

(** [session]: [None] is the nil pointer. *)
Record CQLDriver := mkCQLDriver {
  cluster : ClusterConfig;
  session : option Session
}.

Definition NewCQLDriver (clusterConfig : ClusterConfig) : CQLDriver :=
  mkCQLDriver clusterConfig None.

(** The session is assigned whether or not there is an error. *)
Definition CQLDriver_Connect (d : CQLDriver) : option error * CQLDriver :=
  match CreateSession (cluster d) with
  | Err err =>
      (Some (errorString
               ("unable to create cassandra session: " +:+ Error err)),
       mkCQLDriver (cluster d) None)
  | Ok s => (None, mkCQLDriver (cluster d) (Some s))
  end.

(** The session made for the probe is closed again; the session of the
    driver is not touched. *)
Definition CQLDriver_Reachable (d : CQLDriver) : bool * option error :=
  match CreateSession (cluster d) with
  | Err err =>
      (false,
       Some (errorString ("failed to connect to cluster: " +:+ Error err)))
  | Ok _ => (true, None)
  end.

Definition CQLDriver_Close (d : CQLDriver) : option error := None.

Definition CQLDriver_Execute (d : CQLDriver) (statement : string)
    (placeholders : list value) : option error :=
  match session d with
  | None =>
      Some (errorString "cannot execute statement: not connected to cassandra")
  | Some s => Exec s statement placeholders
  end.

Definition CQLDriver_Query (d : CQLDriver) (query : string)
    (placeholders : list value) : result CQLRows :=
  match session d with
  | None =>
      Err (errorString "cannot execute query: not connected to cassandra")
  | Some s =>
      match SliceMap s query placeholders with
      | Err err =>
          Err (errorString ("failed to get result rows: " +:+ Error err))
      | Ok rows =>
          match IterClose s query placeholders with
          | Some err =>
              Err (errorString ("query execution failed: " +:+ Error err))
          | None => Ok rows
          end
      end
  end.

#[global] Instance CQLDriver_Driver : Driver CQLDriver := {
  Driver_Connect := CQLDriver_Connect;
  Driver_Close d := (CQLDriver_Close d, d);
  Driver_Reachable d := (CQLDriver_Reachable d, d);
  Driver_Execute statement placeholders d :=
    (CQLDriver_Execute d statement placeholders, d);
  Driver_Query query placeholders d :=
    (CQLDriver_Query d query placeholders, d)
}.

End CQL.

End store.

(** ** pkg/server: the handler of [POST /write] *)

Module writeapi.
Import Go GoTime server.

(** The calls that [POST /write] makes on its [LogStore]. *)
Inductive StoreOp :=
| OpReady
| OpWrite (entries : list logstore.LogEntry).

(** The [logstore.LogStore] behind the server: what [Ready] and [Write]
    answer. *)
Record LogWriter := mkLogWriter {
  wReady : bool * option error;
  Write : list logstore.LogEntry -> option error
}.

(** What a handler has written: the status, the [Content-Type] header when
    one is set, and the JSON value of the body when there is one. *)
Inductive WriteBody :=
| FailureBody (e : logstore.APIError)
| NoBody.

Record WriteResponse := mkWriteResponse {
  wStatusCode : Z;
  wContentType : option string;
  wBody : WriteBody
}.

Definition writeErrorResponse (statusCode : Z) (errorMsg : logstore.APIError)
  : WriteResponse :=
  mkWriteResponse statusCode (Some "application/json") (FailureBody errorMsg).

(** The loop of [writePostHandler] over the entries: the error of the first
    entry that does not validate. *)
Fixpoint validateEntries (logEntries : list logstore.LogEntry)
  : option error :=
  match logEntries with
  | [] => None
  | logEntry :: rest =>
      match logstore.LogEntry_Validate logEntry with
      | Some err => Some err
      | None => validateEntries rest
      end
  end.

Section Post.

(** [json.NewDecoder(r.Body).Decode(&logEntries)] on the body of the
    request. *)
Variable Decode : string -> result (list logstore.LogEntry).

Definition writePostHandler (s : LogWriter) (requestBody : string)
  : WriteResponse * list StoreOp :=
  match Decode requestBody with
  | Err err =>
      (writeErrorResponse StatusBadRequest
         (logstore.mkAPIError "failed to parse request" (Error err)), [])
  | Ok logEntries =>
      match validateEntries logEntries with
      | Some err =>
          (writeErrorResponse StatusBadRequest
             (logstore.mkAPIError "invalid log entry" (Error err)), [])
      | None =>
          match snd (wReady s) with
          | Some err =>
              (writeErrorResponse StatusServiceUnavailable
                 (logstore.mkAPIError "data store is not ready" (Error err)),
               [OpReady])
          | None =>
              match Write s logEntries with
              | Some err =>
                  (writeErrorResponse StatusInternalServerError
                     (logstore.mkAPIError "failed to store entries"
                                          (Error err)),
                   [OpReady; OpWrite logEntries])
              | None =>
                  (mkWriteResponse StatusOK None NoBody,
                   [OpReady; OpWrite logEntries])
              end
          end
      end
  end.

End Post.

End writeapi.

(** ** Further vocabulary and cases *)

Module Terms.
Import Go GoTime cassandra server Spec store writeapi.

(** What [ReplicationFactorMap.String] writes for one key. *)
Definition factorText (r : gmap string Z) (key : string) : string :=
  "'" +:+ key +:+ "': " +:+ Itoa (default 0 (r !! key)).

(** A row that lacks a [time.Time] under "time" or a string under
    "message". *)
Definition malformed (row : gmap string value) : Prop :=
  (forall t, row !! "time" <> Some (TimeValue t)) \/
  (forall s, row !! "message" <> Some (StringValue s)).

Section MetricsTerms.

Variable float64 : Type.

(** The dimensions [d] have an entry in each of the three maps, or in none
    of them. *)
Definition tracked (mw : MetricsMiddleware float64) (d : MetricDimensions)
  : Prop :=
  is_Some (TotalRequests float64 mw !! d) /\
  is_Some (SumResponseTime float64 mw !! d) /\
  is_Some (AvgResponseTime float64 mw !! d).

Definition untracked (mw : MetricsMiddleware float64) (d : MetricDimensions)
  : Prop :=
  TotalRequests float64 mw !! d = None /\
  SumResponseTime float64 mw !! d = None /\
  AvgResponseTime float64 mw !! d = None.

End MetricsTerms.

(** The number of occurrences of a character in a text. *)
Fixpoint countChar (c : ascii) (text : string) : nat :=
  match text with
  | EmptyString => O
  | String x rest =>
      (if Ascii.eqb x c then 1 else 0)%nat + countChar c rest
  end.

(** The placeholder of CQL. *)
Definition placeholder : ascii := ascii_of_nat 63.

(** A row with a [time.Time] under "time" and a string under "message",
    and the log row read from it. *)
Definition wellFormed (row : gmap string value) : Prop :=
  exists t s, row !! "time" = Some (TimeValue t) /\
              row !! "message" = Some (StringValue s).

Definition readRow (row : gmap string value) : logstore.LogRow :=
  logstore.mkLogRow
    (match row !! "time" with Some (TimeValue t) => t | _ => zeroTime end)
    (match row !! "message" with Some (StringValue s) => s | _ => "" end).

(** *** Cases *)

(** An entry of the pod of [borderQuery], ten seconds into its interval,
    and one stamped 2018-01-01T22:00:30-02:00, thirty seconds after
    midnight UTC. *)
Definition borderEntry : logstore.LogEntry :=
  logstore.mkLogEntry
    (logstore.mkKubernetesMetadata "" ∅ "" "nginx-abcde" "nginx" "" "ns")
    "event 1" "stdout" (Add beforeMidnight (10 * Second)).

Definition offsetEntry : logstore.LogEntry :=
  logstore.mkLogEntry
    (logstore.mkKubernetesMetadata "" ∅ "" "nginx-abcde" "nginx" "" "ns")
    "event 2" "stdout"
    (mkTime (newYear2018 * Second + 24 * Hour + 30 * Second) (Zone 2 (-7200))).

(** The two sub-queries of [borderQuery]. *)
Definition firstDay : logstore.Query :=
  logstore.mkQuery "ns" "nginx-abcde" "nginx" beforeMidnight
    (Add (Add (date beforeMidnight) (24 * Hour)) (-1 * Nanosecond)).

Definition secondDay : logstore.Query :=
  logstore.mkQuery "ns" "nginx-abcde" "nginx" (date afterMidnight)
                   afterMidnight.

(** A driver that answers the first day of [borderQuery] and fails on any
    other day, and one whose rows have no "time" column. *)
Definition refusedAfterMidnight (statement : string) (args : list value)
  : result (list (gmap string value)) :=
  match args with
  | [_; _; _; DateValue day; _; _] =>
      if day =? formatDate beforeMidnight then
        Ok [cqlRow (Add beforeMidnight (10 * Second)) "event 1"]
      else Err (errorString "connection refused")
  | _ => Err (errorString "bad arguments")
  end.

Definition timelessDriver (statement : string) (args : list value)
  : result (list (gmap string value)) :=
  Ok [{[ "message" := StringValue "event 1" ]}].

(** A pool that has been stopped. *)
Definition stoppedWorld : World :=
  mkWorld (mkPool [] 1 [mkWriter true] false) [] [].

(** A driver without state that answers nil to every call, as the mock of
    the tests is set up to. *)
Definition nilDriver : Driver unit := {|
  Driver_Connect _ := (None, tt);
  Driver_Close _ := (None, tt);
  Driver_Reachable _ := ((true, None), tt);
  Driver_Execute _ _ _ := (None, tt);
  Driver_Query _ _ _ := (Ok [], tt)
|}.

(** A cluster on which no session can be created. *)
Definition noSession (clusterConfig : unit) : result unit :=
  Err (errorString "gocql: unable to create session").

Definition twoDatacenters : gmap string Z := {[ "dc1" := 1; "dc2" := 2 ]}.

(** A batch whose second entry has no namespace, as a decoder returns it,
    and a store that accepts everything. *)
Definition namelessEntry : logstore.LogEntry :=
  logstore.mkLogEntry
    (logstore.mkKubernetesMetadata "" ∅ "" "nginx-abcde" "nginx" "" "")
    "event 2" "stdout" oneUTC.

Definition decodeBatch (requestBody : string)
  : result (list logstore.LogEntry) :=
  Ok [entryAt oneUTC "event 1"; namelessEntry; entryAt oneUTC "event 3"].

Definition acceptingStore : LogWriter :=
  mkLogWriter (true, None) (fun _ => None).

(** Requests that give [end_time] twice, and no [pod_name]. *)
Definition parseOne (text : string) : option Time := Some oneUTC.

Definition twiceEndTime : Request :=
  mkRequest
    {[ "namespace" := ["default"];
       "pod_name" := ["nginx-abcde"];
       "container_name" := ["nginx"];
       "start_time" := ["2018-01-01T13:00:00Z"];
       "end_time" := ["2018-01-01T14:00:00Z"; "2018-01-01T15:00:00Z"] ]}.

Definition noPodName : Request :=
  mkRequest
    {[ "namespace" := ["default"];
       "container_name" := ["nginx"];
       "start_time" := ["2018-01-01T13:00:00Z"] ]}.

(** Two requests with different dimensions. *)
Definition writeDone : Completion Q :=
  mkCompletion Q "POST" "/write" 200 (1 # 4)%Q.

Definition queryDone : Completion Q :=
  mkCompletion Q "GET" "/query" 200 (1 # 2)%Q.

End Terms.

(** * Properties *)

(** ** The query splitter *)

Module SplitterProofs.
Import Go GoTime cassandra Spec.

Abbreviation Day := (24 * Hour) (only parsing).

#[local] Arguments date : simpl never.
#[local] Arguments daysBetween : simpl never.

(** Linear arithmetic over instants, with the durations as numbers. *)
Ltac time_lia :=
  unfold inPeriod, Add, Nanosecond, Hour, Second in *;
  cbn [instant loc start end_] in *; lia.

Lemma Day_pos : 0 < Day.
Proof. reflexivity. Qed.

Lemma date_instant t : instant (date t) = Day * (instant t / Day).
Proof.
  unfold date, Truncate. change (Day <=? 0) with false. simpl.
  rewrite Z.mod_eq by (pose proof Day_pos; lia). lia.
Qed.

Lemma date_bounds t :
  instant (date t) <= instant t < instant (date t) + Day.
Proof.
  rewrite date_instant.
  pose proof (Z.mul_div_le (instant t) Day Day_pos).
  pose proof (Z.mul_succ_div_gt (instant t) Day Day_pos). lia.
Qed.

Lemma date_next t : date (Add (date t) Day) = Add (date t) Day.
Proof.
  unfold date at 1, Truncate. change (Day <=? 0) with false.
  unfold Add. cbn [instant loc]. f_equal.
  rewrite date_instant.
  replace (Day * (instant t / Day) + Day)
    with ((instant t / Day + 1) * Day) by lia.
  rewrite Z_mod_mult. lia.
Qed.

Lemma date_date t : date (date t) = date t.
Proof.
  unfold date at 1, Truncate. change (Day <=? 0) with false.
  cbn [loc]. rewrite date_instant.
  rewrite (Z.mul_comm Day), Z_mod_mult, Z.sub_0_r.
  unfold date, Truncate. change (Day <=? 0) with false. f_equal.
  rewrite Z.mod_eq by (pose proof Day_pos; lia). lia.
Qed.

Lemma daysBetween_eq t u :
  daysBetween t u = instant u / Day - instant t / Day.
Proof.
  unfold daysBetween. rewrite !date_instant.
  rewrite <- Z.mul_sub_distr_l, Z.mul_comm.
  apply Z_div_mult. reflexivity.
Qed.

Lemma daysBetween_next t u :
  daysBetween (Add (date t) Day) u = daysBetween t u - 1.
Proof.
  rewrite !daysBetween_eq. unfold Add. cbn [instant].
  rewrite date_instant.
  replace (Day * (instant t / Day) + Day)
    with ((instant t / Day + 1) * Day) by lia.
  rewrite Z_div_mult by reflexivity. lia.
Qed.

Lemma Before_date_iff t u :
  Before (date t) (date u) = true <-> 0 < daysBetween t u.
Proof.
  unfold Before. rewrite Z.ltb_lt, daysBetween_eq, !date_instant.
  pose proof Day_pos. split; intros; nia.
Qed.

Lemma daysBetween_nonneg t u :
  instant t <= instant u -> 0 <= daysBetween t u.
Proof.
  intros H. rewrite daysBetween_eq.
  pose proof (Z.div_le_mono _ _ Day Day_pos H). lia.
Qed.

Lemma dates_le t u :
  0 <= daysBetween t u -> instant (date t) <= instant (date u).
Proof.
  rewrite daysBetween_eq, !date_instant. pose proof Day_pos. nia.
Qed.

Lemma same_date_iff t u :
  instant (date t) = instant (date u) <-> daysBetween t u = 0.
Proof.
  rewrite daysBetween_eq, !date_instant. pose proof Day_pos.
  split; intros; nia.
Qed.

Lemma eqb_date t u :
  eqb (date t) (date u) =
  (instant (date t) =? instant (date u)) && Location_eqb (loc t) (loc u).
Proof. reflexivity. Qed.

(** *** The loop, unfolded *)

Lemma daysLoop_step pend t acc :
  Before (date t) (date pend) = true ->
  daysLoop pend t acc =
  daysLoop pend (Add (date t) Day)
           (acc ++ [mkPeriod t (Add (Add (date t) Day) (-1 * Nanosecond))]).
Proof.
  intros H. rewrite daysLoop_equation_1.
  destruct (sumbool_of_bool (Before (date t) (date pend))) as [e|e];
    [reflexivity | congruence].
Qed.

Lemma daysLoop_exit pend t acc :
  Before (date t) (date pend) = false -> daysLoop pend t acc = acc.
Proof.
  intros H. rewrite daysLoop_equation_1.
  destruct (sumbool_of_bool (Before (date t) (date pend))) as [e|e];
    [congruence | reflexivity].
Qed.

Lemma daysLoop_dayChain n : forall pend t acc,
  Z.to_nat (daysBetween t pend) = n ->
  daysLoop pend t acc = acc ++ dayChain t n.
Proof.
  induction n as [|n IH]; intros pend t acc Hn.
  - rewrite daysLoop_exit; [simpl; now rewrite app_nil_r|].
    apply not_true_is_false. rewrite Before_date_iff. lia.
  - rewrite daysLoop_step by (apply Before_date_iff; lia).
    rewrite IH by (rewrite daysBetween_next; lia).
    rewrite <- app_assoc. reflexivity.
Qed.

(** The result of [divideByDays], in closed form. *)
Lemma divideByDays_shape p :
  divideByDays p =
  if eqb (date (start p)) (date (end_ p)) then [p]
  else dayChain (start p) (Z.to_nat (daysBetween (start p) (end_ p)))
         ++ [mkPeriod (date (end_ p)) (end_ p)].
Proof.
  unfold divideByDays. destruct (eqb _ _); [reflexivity|].
  cbv zeta. now rewrite (daysLoop_dayChain _ _ _ _ eq_refl).
Qed.

(** *** The chain of day periods up to [e] *)

Section Chain.

Variable e : Time.

Let final : timePeriod := mkPeriod (date e) e.

Lemma chain_length n t : length (dayChain t n ++ [final]) = S n.
Proof.
  rewrite length_app. simpl.
  revert t; induction n as [|n IH]; intros t; simpl; [reflexivity|].
  specialize (IH (Add (date t) Day)). lia.
Qed.

Lemma chain_last n t : last (dayChain t n ++ [final]) = Some final.
Proof. apply last_snoc. Qed.

Lemma chain_head n t :
  daysBetween t e = Z.of_nat n -> instant (date t) = instant t ->
  exists q rest,
    dayChain t n ++ [final] = q :: rest /\ instant (start q) = instant t.
Proof.
  intros Hd Ht. destruct n as [|n]; simpl.
  - exists final, []. split; [reflexivity|]. subst final. cbn [start end_].
    apply same_date_iff in Hd. lia.
  - eauto.
Qed.

Lemma dayChain_ends n : forall t i q,
  dayChain t n !! i = Some q -> endsItsDay q.
Proof.
  induction n as [|n IH]; intros t i q H; [discriminate|].
  destruct i as [|i]; simpl in H.
  - injection H as <-. reflexivity.
  - eapply IH, H.
Qed.

Lemma chain_ends n t i q :
  (dayChain t n ++ [final]) !! i = Some q ->
  (S i < length (dayChain t n ++ [final]))%nat -> endsItsDay q.
Proof.
  rewrite chain_length. intros H Hi.
  assert (Hn : length (dayChain t n) = n).
  { pose proof (chain_length n t) as L. rewrite length_app in L.
    simpl in L. lia. }
  rewrite lookup_app_l in H by lia. eapply dayChain_ends, H.
Qed.

Lemma chain_all_start n : forall t,
  t = date t -> Forall startsItsDay (dayChain t n ++ [final]).
Proof.
  induction n as [|n IH]; intros t Ht; simpl.
  - constructor; [|constructor]. unfold startsItsDay. subst final. cbn [start end_].
    symmetry. apply date_date.
  - constructor; [exact Ht|]. apply IH. symmetry. apply date_next.
Qed.

Lemma chain_starts n t i q :
  (dayChain t n ++ [final]) !! S i = Some q -> startsItsDay q.
Proof.
  destruct n as [|n]; simpl; intros H.
  - destruct i; discriminate.
  - pose proof (chain_all_start n (Add (date t) Day)
                  (eq_sym (date_next t))) as HF.
    rewrite Forall_lookup in HF. eapply HF, H.
Qed.

Lemma chain_adjacent n : forall t i q r,
  daysBetween t e = Z.of_nat n ->
  (dayChain t n ++ [final]) !! i = Some q ->
  (dayChain t n ++ [final]) !! S i = Some r ->
  instant (start r) = instant (end_ q) + 1.
Proof.
  induction n as [|n IH]; intros t i q r Hd Hq Hr.
  - destruct i; discriminate.
  - assert (Hd' : daysBetween (Add (date t) Day) e = Z.of_nat n)
      by (rewrite daysBetween_next; lia).
    simpl in Hq, Hr. destruct i as [|i].
    + simpl in Hq. injection Hq as <-.
      destruct (chain_head n _ Hd') as (q0 & rest & E & Hs).
      { now rewrite date_next. }
      rewrite E in Hr. simpl in Hr. injection Hr as <-.
      rewrite Hs. time_lia.
    + simpl in Hq. eapply IH; eauto.
Qed.

Lemma chain_union n : forall t x,
  daysBetween t e = Z.of_nat n ->
  instant t <= instant e ->
  (n = O -> instant t = instant (date e)) ->
  Exists (inPeriod x) (dayChain t n ++ [final]) <->
  instant t <= x <= instant e.
Proof.
  induction n as [|n IH]; intros t x Hd Hle H0.
  - simpl. rewrite Exists_cons, Exists_nil. unfold inPeriod. subst final.
    cbn [start end_]. rewrite <- (H0 eq_refl). tauto.
  - assert (Hd' : daysBetween (Add (date t) Day) e = Z.of_nat n)
      by (rewrite daysBetween_next; lia).
    assert (Hnext : instant (date (Add (date t) Day)) = instant (date t) + Day)
      by (rewrite date_next; reflexivity).
    assert (Hde : instant (date t) + Day <= instant (date e)).
    { rewrite <- Hnext. apply dates_le. lia. }
    pose proof (date_bounds t) as Bt. pose proof (date_bounds e) as Be.
    simpl. rewrite Exists_cons, IH; [| exact Hd' | time_lia |].
    + time_lia.
    + intros ->. apply same_date_iff in Hd'. rewrite date_next in Hd'.
      exact Hd'.
Qed.

Lemma chain_lower n : forall t,
  daysBetween t e = Z.of_nat n ->
  Forall (fun q => instant (date t) <= instant (start q))
         (dayChain t n ++ [final]).
Proof.
  induction n as [|n IH]; intros t Hd; cbn [dayChain app].
  - constructor; [|constructor]. subst final. cbn [start end_].
    apply same_date_iff in Hd. lia.
  - constructor; [cbn [start]; apply date_bounds|].
    assert (Hd' : daysBetween (Add (date t) Day) e = Z.of_nat n)
      by (rewrite daysBetween_next; lia).
    specialize (IH _ Hd'). rewrite date_next in IH.
    eapply Forall_impl; [exact IH|]. simpl. intros q Hq. time_lia.
Qed.

Lemma chain_chronological n : forall t,
  daysBetween t e = Z.of_nat n ->
  chronological (dayChain t n ++ [final]).
Proof.
  unfold chronological.
  induction n as [|n IH]; intros t Hd; simpl.
  - repeat constructor.
  - assert (Hd' : daysBetween (Add (date t) Day) e = Z.of_nat n)
      by (rewrite daysBetween_next; lia).
    constructor; [apply IH, Hd'|].
    pose proof (chain_lower n _ Hd') as HL. rewrite date_next in HL.
    eapply Forall_impl; [exact HL|]. simpl. intros q Hq. time_lia.
Qed.

End Chain.

(** The split of a period whose end points carry the same location: all
    that the specification states of [divideByDays]. *)
Lemma divideByDays_same_location (p : timePeriod) :
  instant (start p) <= instant (end_ p) ->
  Location_eqb (loc (start p)) (loc (end_ p)) = true ->
  splitsByDays (start p) (end_ p) (divideByDays p) /\
  (instant (date (start p)) = instant (date (end_ p)) ->
   divideByDays p = [p]).
Proof.
  intros Hle Hloc. rewrite divideByDays_shape.
  pose proof (daysBetween_nonneg _ _ Hle) as Hnn.
  rewrite eqb_date, Hloc, andb_true_r.
  destruct (instant (date (start p)) =? instant (date (end_ p))) eqn:E.
  - apply Z.eqb_eq in E. pose proof E as E0. apply same_date_iff in E0.
    split; [|reflexivity].
    pose proof (date_bounds (start p)). pose proof (date_bounds (end_ p)).
    split.
    + simpl. lia.
    + eauto.
    + eauto.
    + simpl. intros i q _ Hi. lia.
    + intros i q Hq. destruct i; discriminate.
    + intros i q r _ Hr. destruct i; discriminate.
    + intros x. rewrite Exists_cons, Exists_nil. unfold inPeriod. tauto.
    + repeat constructor.
  - apply Z.eqb_neq in E. split; [|intros; contradiction].
    assert (Hpos : 0 < daysBetween (start p) (end_ p)).
    { destruct (Z.eq_dec (daysBetween (start p) (end_ p)) 0) as [H0|H0];
        [apply same_date_iff in H0; contradiction | lia]. }
    set (n := Z.to_nat (daysBetween (start p) (end_ p))).
    assert (Hd : daysBetween (start p) (end_ p) = Z.of_nat n) by lia.
    assert (Hn : exists k, n = S k) by (exists (Nat.pred n); lia).
    split.
    + rewrite chain_length. lia.
    + destruct Hn as [k ->]. simpl. eauto.
    + eexists. split; [apply chain_last | reflexivity].
    + intros i q. apply chain_ends.
    + intros i q. apply chain_starts.
    + intros i q r. apply chain_adjacent, Hd.
    + intros x. apply chain_union; [exact Hd | exact Hle | lia].
    + apply chain_chronological, Hd.
Qed.

(** Whatever the locations and the order of the end points, the periods
    come out one after the other, each within one day. *)
Lemma divideByDays_chronological p : chronological (divideByDays p).
Proof.
  rewrite divideByDays_shape. destruct (eqb _ _); [repeat constructor|].
  destruct (Z.to_nat (daysBetween (start p) (end_ p))) as [|k] eqn:E.
  - repeat constructor.
  - apply chain_chronological. lia.
Qed.

Lemma date_endOfDay t :
  instant (date (Add (Add (date t) Day) (-1 * Nanosecond))) =
  instant (date t).
Proof.
  rewrite (date_instant (Add _ _)), (date_instant t).
  f_equal. symmetry.
  apply Z.div_unique_pos with (r := Day - 1); [pose proof Day_pos; lia|].
  cbn [Add instant]. rewrite date_instant. unfold Nanosecond. lia.
Qed.

(** Every period that [divideByDays] returns lies within one UTC day. *)
Lemma divideByDays_within_day p :
  Forall (fun q => instant (date (start q)) = instant (date (end_ q)))
         (divideByDays p).
Proof.
  rewrite divideByDays_shape.
  destruct (eqb (date (start p)) (date (end_ p))) eqn:E.
  - repeat constructor. rewrite eqb_date in E.
    apply andb_true_iff in E as [E _]. now apply Z.eqb_eq in E.
  - apply Forall_app. split.
    + generalize (Z.to_nat (daysBetween (start p) (end_ p))) as n.
      generalize (start p) as t.
      intros t n; revert t; induction n as [|n IH]; intros t;
        cbn [dayChain]; constructor; [|apply IH].
      cbn [start end_]. now rewrite date_endOfDay.
    + repeat constructor. cbn [start end_]. now rewrite date_date.
Qed.

(** *** [Split] *)

Lemma Split_windows q : map window (Split q) = divideByDays (window q).
Proof.
  unfold Split. rewrite map_map. cbn [window logstore.StartTime logstore.EndTime].
  erewrite map_ext; [apply map_id|]. intros []; reflexivity.
Qed.

Lemma Split_fields q :
  Forall (fun sub =>
            logstore.qNamespace sub = logstore.qNamespace q /\
            logstore.qPodName sub = logstore.qPodName q /\
            logstore.qContainerName sub = logstore.qContainerName q)
         (Split q).
Proof.
  unfold Split. apply Forall_map, Forall_forall. intros d _. now simpl.
Qed.

(** With both end points in one location, [Split] does all that the
    specification states of it. *)
Lemma Split_same_location (q : logstore.Query) :
  logstore.Query_Validate q = None ->
  Location_eqb (loc (logstore.StartTime q)) (loc (logstore.EndTime q)) = true ->
  Forall (fun sub =>
            logstore.qNamespace sub = logstore.qNamespace q /\
            logstore.qPodName sub = logstore.qPodName q /\
            logstore.qContainerName sub = logstore.qContainerName q /\
            instant (date (logstore.StartTime sub)) =
            instant (date (logstore.EndTime sub)))
         (Split q) /\
  chronological (map window (Split q)) /\
  forall x, Exists (inPeriod x) (map window (Split q)) <->
            instant (logstore.StartTime q) <= x <= instant (logstore.EndTime q).
Proof.
  intros Hv Hloc.
  assert (Hlt : instant (logstore.StartTime q) < instant (logstore.EndTime q)).
  { unfold logstore.Query_Validate in Hv.
    repeat match type of Hv with
           | (if ?c then _ else _) = None => destruct c eqn:?; [discriminate|]
           end.
    match goal with H : negb (Before _ _) = false |- _ =>
      apply negb_false_iff, Z.ltb_lt in H; exact H end. }
  split; [|split].
  - pose proof (Split_fields q) as HF.
    pose proof (divideByDays_within_day (window q)) as HD.
    rewrite <- Split_windows in HD. rewrite Forall_map in HD.
    rewrite Forall_forall in *. intros sub Hsub.
    destruct (HF sub Hsub) as (? & ? & ?). repeat split; auto.
    apply (HD sub Hsub).
  - rewrite Split_windows. apply divideByDays_chronological.
  - rewrite Split_windows.
    destruct (divideByDays_same_location (window q)) as [HS _];
      [simpl; lia | exact Hloc |].
    apply (split_union _ _ _ HS).
Qed.

(** **** The day of a period that starts and ends on one day, when the
    location of its start differs from that of its end *)

(** C1, at a period within one UTC day whose start carries another location
    than its end: [date(p.start) == date(p.end)] is false although both
    dates are the same instant, the loop does not run, and the one period
    returned starts at midnight rather than at [p.start]. *)
Theorem divideByDays_mixed_locations :
  let p := mkPeriod noonInZone oneUTC in
  instant (start p) <= instant (end_ p) /\
  instant (date (start p)) = instant (date (end_ p)) /\
  daysBetween (start p) (end_ p) = 0 /\
  divideByDays p = [mkPeriod (date oneUTC) oneUTC] /\
  divideByDays p <> [p] /\
  ~ Exists (fun q => start q = start p) (divideByDays p) /\
  Exists (inPeriod (instant oneUTC - 13 * Hour)) (divideByDays p).
Proof.
  cbv zeta.
  assert (E : divideByDays (mkPeriod noonInZone oneUTC) =
              [mkPeriod (date oneUTC) oneUTC]) by (vm_compute; reflexivity).
  rewrite E. split; [vm_compute; discriminate|].
  split; [vm_compute; reflexivity|].
  split; [vm_compute; reflexivity|].
  split; [reflexivity|].
  split; [intros H; vm_compute in H; discriminate|].
  split.
  - intros H. apply Exists_cons in H as [H|H]; [|inversion H].
    vm_compute in H. discriminate.
  - constructor. vm_compute. split; discriminate.
Qed.

(** C2, at a valid query within one UTC day whose start time carries
    another location than its end time: the only sub-query starts at
    midnight, twelve hours before the start of the query. *)
Theorem Split_mixed_locations :
  let q := logstore.mkQuery "ns" "pod" "container" noonInZone oneUTC in
  logstore.Query_Validate q = None /\
  Split q =
    [logstore.mkQuery "ns" "pod" "container" (date oneUTC) oneUTC] /\
  ~ (forall x, Exists (inPeriod x) (map window (Split q)) <->
               instant (logstore.StartTime q) <= x
               <= instant (logstore.EndTime q)).
Proof.
  cbv zeta. split; [reflexivity|].
  assert (E : Split (logstore.mkQuery "ns" "pod" "container" noonInZone oneUTC)
              = [logstore.mkQuery "ns" "pod" "container" (date oneUTC) oneUTC])
    by (vm_compute; reflexivity).
  rewrite E. split; [reflexivity|].
  intros H. specialize (H (instant (date oneUTC))).
  destruct H as [H _].
  assert (X : Exists (inPeriod (instant (date oneUTC)))
                (map window
                   [logstore.mkQuery "ns" "pod" "container" (date oneUTC) oneUTC])).
  { constructor. vm_compute. split; discriminate. }
  apply H in X. vm_compute in X. destruct X as [X _]. now apply X.
Qed.

End SplitterProofs.

(** ** The store: queries *)

Module QueryProofs.
Import Go GoTime cassandra Spec.

Section Query.

Variable DriverQuery :
  string -> list value -> result (list (gmap string value)).
Variable options : Options.

#[local] Abbreviation answers := (answers DriverQuery options).

Lemma executeQuery_answers sub rows :
  answers sub rows ->
  executeQuery DriverQuery options sub = Returned (Ok rows).
Proof.
  intros (results & HD & HR). unfold executeQuery. rewrite HD, HR.
  reflexivity.
Qed.

Lemma queryLoop_concat subs : forall rowss acc,
  Forall2 answers subs rowss ->
  queryLoop DriverQuery options subs acc = Returned (Ok (acc ++ concat rowss)).
Proof.
  induction subs as [|sub subs IH]; intros rowss acc HF.
  - apply Forall2_nil_inv_l in HF as ->. simpl. now rewrite app_nil_r.
  - apply Forall2_cons_inv_l in HF as (rows & rowss' & Ha & HF & ->).
    cbn [queryLoop]. rewrite (executeQuery_answers _ _ Ha). cbn [bind].
    rewrite (IH _ _ HF). simpl. now rewrite app_assoc.
Qed.

Lemma concat_ascending subs : forall rowss,
  chronological (map window subs) ->
  Forall2 (fun sub rows => ascending rows /\ withinWindow sub rows)
          subs rowss ->
  ascending (concat rowss) /\
  Forall (fun r => Exists (fun sub => inPeriod (instant (logstore.rowTime r))
                                                (window sub)) subs)
         (concat rowss).
Proof.
  induction subs as [|sub subs IH]; intros rowss Hc HF.
  - apply Forall2_nil_inv_l in HF as ->. split; constructor.
  - apply Forall2_cons_inv_l in HF as (rows & rowss' & [Ha Hw] & HF & ->).
    cbn [map] in Hc. apply StronglySorted_cons in Hc as [Hhd Hc].
    destruct (IH _ Hc HF) as [IHa IHw]. cbn [concat]. split.
    + apply StronglySorted_app_2; [|exact Ha|exact IHa].
      intros r1 r2 H1 H2.
      unfold withinWindow in Hw. rewrite Forall_forall in Hw.
      specialize (Hw _ H1).
      rewrite Forall_forall in IHw. specialize (IHw _ H2).
      apply Exists_exists in IHw as (sub2 & Hin & Hp).
      rewrite Forall_forall in Hhd.
      specialize (Hhd (window sub2) (list_elem_of_fmap_2 _ _ _ Hin)).
      unfold inPeriod in *. cbn [window start end_] in *. lia.
    + apply Forall_app. split.
      * eapply Forall_impl; [exact Hw|]. intros r Hr. now left.
      * eapply Forall_impl; [exact IHw|]. intros r Hr. now right.
Qed.

(** C3: when the driver answers every sub-query of a valid query with rows
    in ascending order of time that lie within the window of the sub-query,
    [LogStore.Query] returns the rows of the sub-queries one after the other,
    in the order of [Split], and they are in ascending order of time. *)
Theorem Query_rows_ascending (query : logstore.Query)
    (rowss : list (list logstore.LogRow)) :
  logstore.Query_Validate query = None ->
  Forall2 (fun sub rows =>
             answers sub rows /\ ascending rows /\ withinWindow sub rows)
          (Split query) rowss ->
  LogStore_Query DriverQuery options query =
    Returned (Ok (logstore.mkQueryResult (concat rowss))) /\
  ascending (concat rowss).
Proof.
  intros _ HF. split.
  - unfold LogStore_Query. cbv zeta.
    rewrite (queryLoop_concat _ rowss []); [reflexivity|].
    eapply Forall2_impl; [exact HF|]. now intros sub rows (Ha & _).
  - eapply concat_ascending.
    + rewrite SplitterProofs.Split_windows.
      apply SplitterProofs.divideByDays_chronological.
    + eapply Forall2_impl; [exact HF|]. now intros sub rows (_ & Hs).
Qed.

End Query.

End QueryProofs.

Module QueryWitness.
Import Go GoTime cassandra Spec.

Lemma Query_rows_ascending_witness :
  LogStore_Query borderDriver someOptions borderQuery =
    Returned (Ok (logstore.mkQueryResult (concat borderRows))) /\
  ascending (concat borderRows).
Proof.
  apply (QueryProofs.Query_rows_ascending
           borderDriver someOptions borderQuery borderRows).
  - reflexivity.
  - assert (E : Split borderQuery =
                [logstore.mkQuery "ns" "nginx-abcde" "nginx" beforeMidnight
                   (Add (Add (date beforeMidnight) (24 * Hour))
                        (-1 * Nanosecond));
                 logstore.mkQuery "ns" "nginx-abcde" "nginx"
                   (date afterMidnight) afterMidnight])
      by (vm_compute; reflexivity).
    rewrite E. unfold borderRows.
    constructor; [|constructor; [|constructor]].
    + split; [|split].
      * exists [cqlRow (Add beforeMidnight (10 * Second)) "event 1";
                cqlRow (Add beforeMidnight (20 * Second)) "event 2"].
        split; vm_compute; reflexivity.
      * constructor; [constructor; constructor|].
        constructor; [vm_compute; discriminate | constructor].
      * constructor; [split; vm_compute; discriminate|].
        constructor; [split; vm_compute; discriminate | constructor].
    + split; [|split].
      * exists [cqlRow (Add afterMidnight (-30 * Second)) "event 3"].
        split; vm_compute; reflexivity.
      * constructor; constructor.
      * constructor; [split; vm_compute; discriminate | constructor].
Defined.

End QueryWitness.

(** ** The writer pool *)

Module PoolProofs.
Import Go GoTime cassandra Spec.

Section Pool.

Variable Execute : string -> list value -> option error.

#[local] Abbreviation answer := (answer Execute).

Lemma queueOK_lt queue chans op :
  queueOK queue chans -> In op queue ->
  (resultChan op < length chans)%nat.
Proof.
  intros [_ HF] Hin. rewrite Forall_forall in HF.
  apply list_elem_of_In in Hin. specialize (HF _ Hin).
  eapply lookup_lt_Some, HF.
Qed.

Lemma serve_other op chans chans' ch :
  serve Execute op chans = Returned chans' ->
  resultChan op <> ch -> chans' !! ch = chans !! ch.
Proof.
  unfold serve. destruct (chans !! resultChan op) as [[|]|]; try discriminate.
  intros [= <-] Hne. now apply list_lookup_insert_ne.
Qed.

Lemma serveUntil_other ch queue : forall chans queue' chans',
  serveUntil Execute ch queue chans = Returned (queue', chans') ->
  Forall (fun op => resultChan op <> ch) queue ->
  chans' !! ch = chans !! ch.
Proof.
  induction queue as [|op rest IH]; intros chans queue' chans' H HF.
  - simpl in H. now injection H as <- <-.
  - apply Forall_cons in HF as [Hne HF]. cbn [serveUntil] in H.
    destruct (serve Execute op chans) as [chans1| |] eqn:Es;
      cbn [bind] in H; try discriminate.
    destruct (Nat.eqb (resultChan op) ch) eqn:E;
      [apply Nat.eqb_eq in E; contradiction|].
    rewrite (IH _ _ _ H HF). eapply serve_other; eauto.
Qed.

Lemma serveUntil_no_panic ch queue : forall chans msg,
  serveUntil Execute ch queue chans <> Panicked msg.
Proof.
  induction queue as [|op rest IH]; intros chans msg; [discriminate|].
  cbn [serveUntil]. unfold serve.
  destruct (chans !! resultChan op) as [[|]|]; cbn [bind]; try discriminate.
  destruct (Nat.eqb (resultChan op) ch); [discriminate | apply IH].
Qed.

(** C5: a write on a stopped pool returns a new channel whose one slot
    holds the "write rejected" error; the work queue, the other channels
    and the pool are as before. The error is received once: the first
    receive yields it, no queued operation answers on the channel, and a
    second receive waits for ever. *)
Theorem write_on_stopped_pool (insertStatement : string)
    (placeholders : list value) (w : World) :
  started (pool w) = false ->
  queueOK (workChan (pool w)) (resultChans w) ->
  let ch := length (resultChans w) in
  let w' := mkWorld (pool w) (resultChans w ++ [[Some writeRejected]])
                    (received w) in
  writerPool_write Execute insertStatement placeholders w = Returned (ch, w')
  /\ workChan (pool w') = workChan (pool w)
  /\ resultChans w !! ch = None
  /\ resultChans w' !! ch = Some [Some writeRejected]
  /\ Error writeRejected = "write rejected: writerPool has been stopped"
  /\ Forall (fun op => resultChan op <> ch) (workChan (pool w'))
  /\ exists w'',
       receive Execute ch w' = Returned (Some writeRejected, w'') /\
       workChan (pool w'') = workChan (pool w) /\
       receive Execute ch w'' = Blocked.
Proof.
  intros Hs Hq ch w'.
  assert (Hfresh : Forall (fun op => resultChan op <> ch) (workChan (pool w))).
  { apply Forall_forall. intros op Hin. apply list_elem_of_In in Hin.
    pose proof (queueOK_lt _ _ _ Hq Hin). subst ch. lia. }
  assert (Hl : (resultChans w ++ [[Some writeRejected]]) !! ch
               = Some [Some writeRejected]).
  { subst ch. rewrite lookup_app_r by lia. now rewrite Nat.sub_diag. }
  split; [|split; [|split; [|split; [|split; [|split]]]]].
  - unfold writerPool_write. now rewrite Hs.
  - reflexivity.
  - apply lookup_ge_None. subst ch. lia.
  - exact Hl.
  - reflexivity.
  - exact Hfresh.
  - eexists. split; [|split].
    + unfold receive, takeSlot. subst w'. cbn [resultChans pool received].
      rewrite Hl. reflexivity.
    + reflexivity.
    + unfold receive. cbn [resultChans pool received].
      assert (Hemp : <[ch := []]> (resultChans w ++ [[Some writeRejected]])
                     !! ch = Some []).
      { apply list_lookup_insert_eq. apply lookup_lt_Some in Hl. exact Hl. }
      rewrite Hemp.
      destruct (anyRunning (pool w)); [|reflexivity].
      destruct (serveUntil Execute ch (workChan (pool w)) _)
        as [[queue chans]|msg|] eqn:Es; cbn [bind]; try reflexivity;
        [|now apply serveUntil_no_panic in Es].
      unfold takeSlot. cbn [resultChans].
      rewrite (serveUntil_other _ _ _ _ _ Es Hfresh), Hemp. reflexivity.
Qed.

End Pool.

Lemma write_on_stopped_pool_witness :
  let w := mkWorld (mkPool [] 1 [mkWriter true] false) [] [] in
  writerPool_write refusing "INSERT" [] w =
    Returned (O, mkWorld (pool w) [[Some writeRejected]] []).
Proof.
  cbv zeta.
  apply (write_on_stopped_pool refusing "INSERT" []
           (mkWorld (mkPool [] 1 [mkWriter true] false) [] [])).
  - reflexivity.
  - split; constructor.
Defined.

(** *** [stop] *)

Lemma stopWriters_running ws :
  Forall (fun w => stopChan w = false) ws ->
  stopWriters ws = Returned (map (fun _ => mkWriter true) ws).
Proof.
  induction ws as [|w ws IH]; intros HF; [reflexivity|].
  apply Forall_cons in HF as [Hw HF]. cbn [stopWriters map].
  unfold writer_stop. rewrite Hw. cbn [bind]. now rewrite (IH HF).
Qed.

Lemma stopWriters_closed w ws :
  stopChan w = true ->
  stopWriters (w :: ws) = Panicked "close of closed channel".
Proof. intros H. cbn [stopWriters]. unfold writer_stop. now rewrite H. Qed.

(** C6, as the code has it: [stop] on a pool whose writers all run returns,
    closes every stop channel and marks the pool stopped, and a write on the
    stopped pool is rejected at once; a second [stop] does not succeed when
    the pool has a writer: it panics on the closed stop channel. *)
Theorem stop_once (Execute : string -> list value -> option error)
    (p : writerPool) :
  Forall (fun w => stopChan w = false) (writers p) ->
  exists p',
    writerPool_stop p = Returned p' /\
    started p' = false /\
    anyRunning p' = false /\
    workChan p' = workChan p /\
    (forall statement args chans rcv,
        writerPool_write Execute statement args (mkWorld p' chans rcv) =
        Returned (length chans,
                  mkWorld p' (chans ++ [[Some writeRejected]]) rcv)) /\
    (writers p <> [] ->
     writerPool_stop p' = Panicked "close of closed channel").
Proof.
  intros HF. eexists. split; [|split; [|split; [|split; [|split]]]].
  - unfold writerPool_stop. rewrite (stopWriters_running _ HF). reflexivity.
  - reflexivity.
  - unfold anyRunning. cbn [writers]. clear HF.
    induction (writers p); [reflexivity | exact IHl].
  - reflexivity.
  - intros. reflexivity.
  - intros Hne. unfold writerPool_stop. cbn [writers].
    destruct (writers p) as [|w ws]; [contradiction|].
    cbn [map]. now rewrite stopWriters_closed.
Qed.

Lemma stop_once_witness :
  exists p',
    writerPool_stop (mkPool [] 1024 [newWriter; newWriter] true)
      = Returned p' /\
    started p' = false /\
    writerPool_stop p' = Panicked "close of closed channel".
Proof.
  destruct (stop_once refusing (mkPool [] 1024 [newWriter; newWriter] true))
    as (p' & H1 & H2 & _ & _ & _ & H6).
  - repeat constructor.
  - exists p'. split; [exact H1|]. split; [exact H2|].
    apply H6. discriminate.
Defined.

(** C6, as stated, fails: on a pool of one writer made by [newWriterPool]
    the first [stop] returns and the second one panics. *)
Lemma stop_twice_panics :
  exists p0 p1,
    newWriterPool 1 1 = Returned p0 /\
    writerPool_stop p0 = Returned p1 /\
    started p1 = false /\
    writerPool_stop p1 = Panicked "close of closed channel".
Proof. do 2 eexists. repeat split. Qed.

End PoolProofs.

(** ** The store: writes *)

Module WriteProofs.
Import Go GoTime cassandra Spec.

Section Write.

Variable Execute : string -> list value -> option error.
Variable options : Options.

#[local] Abbreviation answer := (answer Execute).
#[local] Abbreviation pendingOn := (pendingOn Execute).

#[local] Abbreviation pending := (pending Execute).
#[local] Abbreviation yield := (yield Execute options).

Lemma find_snoc {A} (f : A -> bool) l x :
  List.find f (l ++ [x]) =
  match List.find f l with
  | Some y => Some y
  | None => if f x then Some x else None
  end.
Proof.
  induction l as [|a l IH]; simpl; [reflexivity|].
  destruct (f a); [reflexivity | exact IH].
Qed.

Lemma Forall2_impl_in {A B} (P Q : A -> B -> Prop) l k :
  Forall2 P l k -> Forall (fun x => forall y, P x y -> Q x y) l ->
  Forall2 Q l k.
Proof.
  induction 1 as [|x y l k Hxy _ IH]; intros HF; [constructor|].
  apply Forall_cons in HF as [Hx HF]. constructor; auto.
Qed.

Lemma serve_ok op rest chans :
  queueOK (op :: rest) chans ->
  serve Execute op chans = Returned (<[resultChan op := [answer op]]> chans).
Proof.
  intros [_ HF]. apply Forall_cons in HF as [Hop _].
  unfold serve. now rewrite Hop.
Qed.

Lemma queueOK_tail op rest chans :
  queueOK (op :: rest) chans ->
  queueOK rest (<[resultChan op := [answer op]]> chans).
Proof.
  intros [HN HF]. cbn [map] in HN. apply NoDup_cons in HN as [Hnot HN].
  apply Forall_cons in HF as [_ HF]. split; [exact HN|].
  rewrite Forall_forall in *. intros op' Hin.
  rewrite list_lookup_insert_ne; [now apply HF|].
  intros E. apply Hnot. rewrite E. now apply list_elem_of_fmap_2.
Qed.

Lemma pendingOn_serve op rest chans c :
  queueOK (op :: rest) chans ->
  pendingOn rest (<[resultChan op := [answer op]]> chans) c =
  pendingOn (op :: rest) chans c.
Proof.
  intros [_ HF]. apply Forall_cons in HF as [Hop _].
  unfold Spec.pendingOn. cbn [List.find].
  destruct (Nat.eqb_spec (resultChan op) c) as [<-|Hne].
  - rewrite Hop, list_lookup_insert_eq by (eapply lookup_lt_Some, Hop).
    reflexivity.
  - now rewrite list_lookup_insert_ne.
Qed.

Lemma serveUntil_ok ch queue : forall chans,
  queueOK queue chans ->
  exists queue' chans',
    serveUntil Execute ch queue chans = Returned (queue', chans') /\
    queueOK queue' chans' /\
    (forall c, pendingOn queue' chans' c = pendingOn queue chans c) /\
    length chans' = length chans /\
    (forall v, chans !! ch = Some [] -> pendingOn queue chans ch = Some v ->
               chans' !! ch = Some [v]).
Proof.
  induction queue as [|op rest IH]; intros chans HQ.
  - exists [], chans. repeat split; try apply HQ.
    intros v Hc. unfold Spec.pendingOn. rewrite Hc. discriminate.
  - cbn [serveUntil]. rewrite (serve_ok _ _ _ HQ). cbn [bind].
    pose proof (queueOK_tail _ _ _ HQ) as HQ'.
    pose proof (fun c => pendingOn_serve _ _ _ c HQ) as HP.
    destruct HQ as [_ HF]. apply Forall_cons in HF as [Hop _].
    assert (Hlt : (resultChan op < length chans)%nat)
      by (eapply lookup_lt_Some, Hop).
    destruct (Nat.eqb_spec (resultChan op) ch) as [E|Hne].
    + do 2 eexists. split; [reflexivity|]. split; [exact HQ'|].
      split; [exact HP|]. split; [apply length_insert|].
      intros v Hc. unfold Spec.pendingOn. rewrite Hc. cbn [List.find].
      rewrite <- E, Nat.eqb_refl. intros [= <-].
      now apply list_lookup_insert_eq.
    + destruct (IH _ HQ') as (q' & chans' & Hs & HQ'' & HP' & Hl & Hv).
      exists q', chans'. split; [exact Hs|]. split; [exact HQ''|].
      split; [intros c; now rewrite HP', HP|].
      split; [now rewrite Hl, length_insert|].
      intros v Hc Hp. apply Hv.
      * now rewrite list_lookup_insert_ne.
      * now rewrite HP.
Qed.

Lemma write_ok statement args w :
  running w ->
  exists w',
    writerPool_write Execute statement args w
      = Returned (length (resultChans w), w') /\
    running w' /\
    received w' = received w /\
    length (resultChans w') = S (length (resultChans w)) /\
    (forall c, (c < length (resultChans w))%nat -> pending w' c = pending w c) /\
    pending w' (length (resultChans w)) = Some (Execute statement args).
Proof.
  destruct w as [[queue cap ws st] chans rcv]. intros [Hst Hrun HQ].
  cbn [pool resultChans received started workChan] in *. subst st.
  unfold writerPool_write, sendWork, pending.
  cbn [pool resultChans received started workChan workChanCap writers negb].
  set (op := mkOperation (mkInsert statement args) (length chans)).
  assert (Hfresh : Forall (fun o => resultChan o <> length chans) queue).
  { apply Forall_forall. intros o Hin. apply list_elem_of_In in Hin.
    pose proof (PoolProofs.queueOK_lt _ _ _ HQ Hin). lia. }
  assert (HQ1 : queueOK (queue ++ [op]) (chans ++ [[]])).
  { destruct HQ as [HN HF]. split.
    - rewrite map_app. cbn [map resultChan op]. apply NoDup_app.
      split; [exact HN|]. split; [|apply NoDup_singleton].
      intros c Hc Hc'. apply list_elem_of_singleton in Hc'. subst c.
      apply list_elem_of_fmap in Hc as (o & E & Hin).
      rewrite Forall_forall in Hfresh. now apply (Hfresh o Hin).
    - apply Forall_app. split.
      + eapply Forall_impl; [exact HF|]. cbn beta. intros o Ho.
        rewrite lookup_app_l; [exact Ho | eapply lookup_lt_Some, Ho].
      + constructor; [|constructor]. cbn [resultChan op].
        rewrite lookup_app_r by lia. now rewrite Nat.sub_diag. }
  assert (Hfind : forall c, (c < length chans)%nat ->
            List.find (fun o => Nat.eqb (resultChan o) c) (queue ++ [op]) =
            List.find (fun o => Nat.eqb (resultChan o) c) queue).
  { intros c Hc. rewrite find_snoc. destruct (List.find _ queue);
      [reflexivity|]. cbn [resultChan op].
    destruct (Nat.eqb_spec (length chans) c); [lia | reflexivity]. }
  assert (HP1 : forall c, (c < length chans)%nat ->
            pendingOn (queue ++ [op]) (chans ++ [[]]) c = pendingOn queue chans c).
  { intros c Hc. unfold Spec.pendingOn.
    now rewrite lookup_app_l, Hfind by exact Hc. }
  assert (HP2 : pendingOn (queue ++ [op]) (chans ++ [[]]) (length chans)
                = Some (Execute statement args)).
  { unfold Spec.pendingOn. rewrite lookup_app_r by lia.
    rewrite Nat.sub_diag. cbn [lookup list_lookup]. rewrite find_snoc.
    destruct (List.find _ queue) as [o|] eqn:Ef.
    - apply find_some in Ef as [Hin Ho]. apply Nat.eqb_eq in Ho.
      rewrite Forall_forall in Hfresh. apply list_elem_of_In in Hin.
      now destruct (Hfresh o Hin).
    - cbn [resultChan op]. now rewrite Nat.eqb_refl. }
  destruct (len (queue ++ [op]) <=? cap).
  - eexists. split; [reflexivity|].
    cbn [pool resultChans received workChan].
    split; [split; [reflexivity | exact Hrun | exact HQ1]|].
    split; [reflexivity|].
    split; [rewrite length_app; simpl; lia|]. split; assumption.
  - rewrite Hrun. destruct (queue ++ [op]) as [|oldest rest] eqn:Eq.
    { symmetry in Eq. now apply app_cons_not_nil in Eq. }
    rewrite (serve_ok _ _ _ HQ1). cbn [bind].
    eexists. split; [reflexivity|].
    cbn [pool resultChans received workChan].
    split; [split; [reflexivity | exact Hrun | now apply queueOK_tail]|].
    split; [reflexivity|].
    split; [rewrite length_insert, length_app; simpl; lia|].
    split.
    + intros c Hc. rewrite pendingOn_serve by exact HQ1. now apply HP1.
    + rewrite pendingOn_serve by exact HQ1. exact HP2.
Qed.

Lemma receive_ok ch v w :
  running w -> pending w ch = Some v ->
  exists w',
    receive Execute ch w = Returned (v, w') /\
    running w' /\
    received w' = received w ++ [ch] /\
    (forall c, c <> ch -> pending w' c = pending w c).
Proof.
  destruct w as [[queue cap ws st] chans rcv]. intros [Hst Hrun HQ].
  cbn [pool resultChans received started workChan] in *. subst st.
  unfold pending, receive, takeSlot.
  cbn [pool resultChans received started workChan workChanCap writers].
  intros Hp. pose proof Hp as Hp0. unfold Spec.pendingOn in Hp.
  destruct (chans !! ch) as [[|v' slot]|] eqn:Ec; [| |discriminate].
  - clear Hp. rewrite Hrun.
    destruct (serveUntil_ok ch queue chans HQ)
      as (q' & chans' & Hs & HQ' & HP & Hl & Hv).
    rewrite Hs. cbn [bind resultChans pool received].
    rewrite (Hv v Ec Hp0).
    assert (Hlt : (ch < length chans')%nat)
      by (rewrite Hl; eapply lookup_lt_Some, Ec).
    eexists. split; [reflexivity|].
    cbn [pool resultChans received workChan started].
    split; [split; [reflexivity | exact Hrun |]|].
    + destruct HQ' as [HN HF]. split; [exact HN|].
      eapply Forall_impl; [exact HF|]. cbn beta. intros o Ho.
      cbn [resultChans].
      destruct (Nat.eq_dec ch (resultChan o)) as [<-|Hne].
      * now apply list_lookup_insert_eq.
      * now rewrite list_lookup_insert_ne.
    + split; [reflexivity|]. intros c Hc. rewrite <- HP.
      unfold Spec.pendingOn. cbn [resultChans pool workChan].
      now rewrite list_lookup_insert_ne.
  - injection Hp as ->. eexists. split; [reflexivity|].
    cbn [pool resultChans received workChan started].
    split; [split; [reflexivity | exact Hrun |]|].
    + destruct HQ as [HN HF]. split; [exact HN|].
      eapply Forall_impl; [exact HF|]. cbn beta. intros o Ho.
      cbn [resultChans].
      rewrite list_lookup_insert_ne; [exact Ho|].
      intros ->. rewrite Ec in Ho. discriminate.
    + split; [reflexivity|]. intros c Hc.
      unfold Spec.pendingOn. cbn [resultChans pool workChan].
      now rewrite list_lookup_insert_ne.
Qed.

Lemma submitAll_ok entries : forall w,
  running w ->
  exists w',
    submitAll Execute options entries w
      = Returned (seq (length (resultChans w)) (length entries), w') /\
    running w' /\
    received w' = received w /\
    (forall c, (c < length (resultChans w))%nat -> pending w' c = pending w c) /\
    Forall2 (fun ch logEntry => pending w' ch = Some (yield logEntry))
            (seq (length (resultChans w)) (length entries)) entries.
Proof.
  induction entries as [|logEntry rest IH]; intros w Hw.
  - exists w. repeat split; try apply Hw. constructor.
  - cbn [submitAll]. unfold LogStore_insert.
    destruct (write_ok (LogStore_insertStatement options)
                (insertArgs logEntry) w Hw)
      as (w1 & Hwr & Hw1 & Hr1 & Hl1 & Hold1 & Hnew1).
    rewrite Hwr. cbn [bind].
    destruct (IH w1 Hw1) as (w2 & Hsub & Hw2 & Hr2 & Hold2 & HF2).
    rewrite Hsub. cbn [bind]. rewrite Hl1.
    exists w2. split; [reflexivity|]. split; [exact Hw2|].
    split; [congruence|]. split.
    + intros c Hc. rewrite Hold2 by lia. now apply Hold1.
    + cbn [length seq]. constructor.
      * rewrite Hold2 by lia. exact Hnew1.
      * rewrite Hl1 in HF2. exact HF2.
Qed.

Lemma awaitAll_ok chs : forall results w,
  running w -> NoDup chs ->
  Forall2 (fun ch r => pending w ch = Some r) chs results ->
  exists w',
    awaitAll Execute chs w
      = Returned (option_map InsertError (firstError results), w') /\
    received w' = received w ++ take (awaited results) chs.
Proof.
  induction chs as [|ch rest IH]; intros results w Hw HN HF.
  - apply Forall2_nil_inv_l in HF as ->. exists w.
    split; [reflexivity|]. simpl. now rewrite app_nil_r.
  - apply Forall2_cons_inv_l in HF as (r & rs & Hp & HF & ->).
    apply NoDup_cons in HN as [Hnot HN]. cbn [awaitAll].
    destruct (receive_ok ch r w Hw Hp) as (w1 & Hrec & Hw1 & Hr1 & Hold).
    rewrite Hrec. cbn [bind]. destruct r as [e|].
    + exists w1. split; [reflexivity|]. exact Hr1.
    + destruct (IH rs w1 Hw1 HN) as (w2 & Haw & Hr2).
      * eapply Forall2_impl_in; [exact HF|].
        apply Forall_forall. intros c Hc r Hr.
        rewrite Hold; [exact Hr|]. now intros ->.
      * exists w2. split; [exact Haw|]. rewrite Hr2, Hr1.
        cbn [awaited firstError take]. now rewrite <- app_assoc.
Qed.

(** The first error is the first result that is not nil, and the results
    awaited are those up to it, or all of them when there is none. *)
Lemma firstError_Some results e :
  firstError results = Some e <->
  exists k, results !! k = Some (Some e) /\
            (forall j, (j < k)%nat -> results !! j = Some None) /\
            awaited results = S k.
Proof.
  induction results as [|[e'|] rest IH]; cbn [firstError awaited].
  - split; [discriminate | intros (k & H & _); discriminate].
  - split.
    + intros [= ->]. exists O. repeat split. intros j Hj. lia.
    + intros (k & Hk & Hj & Ha). injection Ha as <-. now injection Hk as ->.
  - rewrite IH. split; intros (k & Hk & Hj & Ha).
    + exists (S k). split; [exact Hk|]. split; [|now rewrite Ha].
      intros [|j] Hlt; [reflexivity | apply Hj; lia].
    + destruct k as [|k]; [discriminate|]. exists k.
      split; [exact Hk|]. split; [|lia].
      intros j Hlt. apply (Hj (S j)). lia.
Qed.

Lemma firstError_None results :
  firstError results = None <-> Forall (fun r => r = None) results.
Proof.
  induction results as [|[e'|] rest IH]; cbn [firstError].
  - split; constructor.
  - split; [discriminate | intros H; inversion H; discriminate].
  - rewrite IH. split; [now constructor | intros H; now inversion H].
Qed.

Lemma awaited_all results :
  Forall (fun r => r = None) results -> awaited results = length results.
Proof.
  induction 1 as [|r rest -> _ IH]; cbn [awaited length]; congruence.
Qed.

(** C4, as the code has it: [Write] submits one insert per entry, each
    answered on a channel of its own, then receives from the channels in
    the order of submission; at the first error received it returns that
    error wrapped as an [InsertError], and the channels after it are not
    received from; when every channel yields nil it returns nil, having
    received from all. *)
Theorem Write_returns_first_error (entries : list logstore.LogEntry)
    (w : World) :
  running w ->
  let channels := seq (length (resultChans w)) (length entries) in
  let results := map yield entries in
  exists w',
    LogStore_Write Execute options entries w
      = Returned (option_map InsertError (firstError results), w') /\
    received w' = received w ++ take (awaited results) channels /\
    (Forall (fun r => r = None) results ->
     firstError results = None /\ awaited results = length entries) /\
    (forall e, firstError results = Some e ->
     exists k, results !! k = Some (Some e) /\
               (forall j, (j < k)%nat -> results !! j = Some None) /\
               take (awaited results) channels = take (S k) channels).
Proof.
  intros Hw channels results. unfold LogStore_Write.
  destruct (submitAll_ok entries w Hw) as (w1 & Hsub & Hw1 & Hr1 & _ & HF).
  rewrite Hsub. cbn [bind].
  destruct (awaitAll_ok channels results w1 Hw1) as (w2 & Haw & Hr2).
  - apply NoDup_ListNoDup, List.seq_NoDup.
  - subst results. apply Forall2_fmap_r.
    eapply Forall2_impl; [exact HF|]. now intros ch logEntry.
  - exists w2. split; [exact Haw|]. split; [now rewrite Hr2, Hr1|]. split.
    + intros Hall. split; [now apply firstError_None|].
      rewrite (awaited_all _ Hall). subst results. apply length_map.
    + intros e He. apply firstError_Some in He as (k & Hk & Hj & Ha).
      exists k. now rewrite Ha.
Qed.

End Write.

Lemma Write_returns_first_error_witness :
  exists w',
    LogStore_Write refusing someOptions twoEntries (freshWorld 2 1024)
      = Returned (Some (InsertError (errorString "connection refused")), w') /\
    received w' = [O].
Proof.
  destruct (Write_returns_first_error refusing someOptions twoEntries
              (freshWorld 2 1024)) as (w' & H1 & H2 & _).
  - split; [reflexivity | reflexivity | split; constructor].
  - exists w'. split; [exact H1 | exact H2].
Defined.

(** C4, as stated, fails: with a driver that refuses both inserts of a
    batch of two, [Write] returns after the first receive; nothing is ever
    received from the channel of the second entry, whose operation is still
    in the work queue when [Write] returns. *)
Lemma Write_leaves_later_channels :
  exists w',
    LogStore_Write refusing someOptions twoEntries (freshWorld 1 1)
      = Returned (Some (InsertError (errorString "connection refused")), w') /\
    received w' = [O] /\
    ~ In 1%nat (received w') /\
    map resultChan (workChan (pool w')) = [1%nat].
Proof.
  eexists. split; [vm_compute; reflexivity|].
  cbn [received pool workChan map resultChan].
  split; [reflexivity|]. split; [|reflexivity].
  intros [H|[]]. discriminate.
Qed.

End WriteProofs.

(** ** The validators *)

Module ValidateProofs.
Import Go GoTime cassandra Spec.

(** Case analysis on the tests of a validator. *)
Ltac tests :=
  repeat match goal with
         | |- context [String.eqb ?a ?b] => destruct (String.eqb_spec a b)
         | |- context [?a <? ?b] => destruct (Z.ltb_spec a b)
         | |- context [?a <=? ?b] => destruct (Z.leb_spec a b)
         | |- context [?a =? ?b] => destruct (Z.eqb_spec a b)
         end;
  cbn [negb andb orb implb List.find snd fst option_map].

(** C8: [LogEntry.Validate] and [Query.Validate] return nil exactly on the
    entries and queries that the specification calls valid, and otherwise
    the error that names the first missing field, or for a query with all
    fields the error of the time interval. *)
Theorem Validate_names_first_missing :
  (forall l,
      logstore.LogEntry_Validate l =
      option_map (fun name =>
                    errorString ("log entry missing " +:+ name +:+ " field"))
                 (firstFailing (entryChecks l))) /\
  (forall l,
      logstore.LogEntry_Validate l = None <->
      logstore.Namespace (logstore.Kubernetes l) <> "" /\
      logstore.PodName (logstore.Kubernetes l) <> "" /\
      logstore.ContainerName (logstore.Kubernetes l) <> "" /\
      instant (logstore.Time_ l) <> 0) /\
  (forall q,
      logstore.Query_Validate q =
      match firstFailing (queryChecks q) with
      | Some name =>
          Some (ApiQueryError ("missing query parameter: " +:+ name))
      | None =>
          if instant (logstore.EndTime q) <=? instant (logstore.StartTime q)
          then Some (ApiQueryError
                       "query time-interval: start_time must be earlier than end_time")
          else None
      end) /\
  (forall q,
      logstore.Query_Validate q = None <->
      logstore.qNamespace q <> "" /\
      logstore.qPodName q <> "" /\
      logstore.qContainerName q <> "" /\
      instant (logstore.StartTime q) <> 0 /\
      instant (logstore.EndTime q) <> 0 /\
      instant (logstore.StartTime q) < instant (logstore.EndTime q)) /\
  (forall text, Error (errorString text) = text) /\
  (forall text, Error (ApiQueryError text) = text).
Proof.
  split; [|split; [|split; [|split; [|split]]]]; try reflexivity.
  - intros l.
    unfold logstore.LogEntry_Validate, firstFailing, entryChecks, IsZero.
    tests; reflexivity.
  - intros l. unfold logstore.LogEntry_Validate, IsZero.
    tests; split; try discriminate; try tauto; intros; repeat split; auto.
  - intros q.
    unfold logstore.Query_Validate, firstFailing, queryChecks, IsZero, Before.
    tests; try reflexivity; lia.
  - intros q. unfold logstore.Query_Validate, IsZero, Before.
    tests; split; try discriminate; try tauto; try lia;
      intros; repeat split; auto; lia.
Qed.

Lemma firstFailing_None checks :
  firstFailing checks = None <-> Forall (fun c => snd c = true) checks.
Proof.
  unfold firstFailing.
  induction checks as [|[name b] rest IH]; cbn [List.find snd].
  - split; constructor.
  - destruct b; cbn [negb].
    + rewrite IH. split; [now constructor | intros H; now inversion H].
    + split; [discriminate | intros H; inversion H; discriminate].
Qed.

Lemma port_check port :
  (port <=? 0) || (65535 <? port) = negb ((1 <=? port) && (port <=? 65535)).
Proof.
  destruct (Z.leb_spec port 0), (Z.ltb_spec 65535 port),
    (Z.leb_spec 1 port), (Z.leb_spec port 65535); cbn; lia || reflexivity.
Qed.

Lemma positive_check n : (n <=? 0) = negb (1 <=? n).
Proof.
  destruct (Z.leb_spec n 0), (Z.leb_spec 1 n); cbn; lia || reflexivity.
Qed.

Lemma below_one_check n : (n <? 1) = negb (1 <=? n).
Proof. apply Z.ltb_antisym. Qed.

Lemma Options_Validate_checks (opts : Options) :
  Options_Validate opts =
    option_map OptionError (firstFailing (optionChecks opts)).
Proof.
  unfold Options_Validate, validateFactors, ReplicationStrategy_Validate,
    firstFailing, optionChecks, len, maplen, SimpleStrategy,
    NetworkTopologyStrategy.
  cbv zeta. rewrite port_check, !positive_check, !below_one_check.
  cbn [List.find snd].
  destruct (1 <=? Z.of_nat (length (Hosts opts))); cbn [negb];
    [|reflexivity].
  destruct ((1 <=? CQLPort opts) && (CQLPort opts <=? 65535)); cbn [negb];
    [|reflexivity].
  destruct (String.eqb (Keyspace opts) ""); cbn [negb]; [reflexivity|].
  destruct (String.eqb (LogTableName opts) ""); cbn [negb]; [reflexivity|].
  destruct (String.eqb_spec (ReplicationStrategy opts) "SimpleStrategy")
    as [Es|Es].
  - destruct (String.eqb_spec (ReplicationStrategy opts)
                "NetworkTopologyStrategy") as [En|_];
      [rewrite Es in En; discriminate|].
    cbn [orb negb implb option_map].
    destruct (Z.of_nat (size (ReplicationFactors opts)) =? 1); cbn [negb];
      [|reflexivity].
    destruct (ReplicationFactors opts !! "cluster") as [n|] eqn:Ec.
    + rewrite bool_decide_eq_true_2 by eauto. cbn [negb].
      destruct (1 <=? WriteConcurrency opts); cbn [negb]; [|reflexivity].
      destruct (1 <=? WriteBufferSize opts); reflexivity.
    + rewrite bool_decide_eq_false_2 by (intros [? ?]; discriminate).
      reflexivity.
  - destruct (String.eqb (ReplicationStrategy opts)
                "NetworkTopologyStrategy");
      cbn [orb negb implb option_map]; [|reflexivity].
    destruct (1 <=? Z.of_nat (size (ReplicationFactors opts))); cbn [negb];
      [|reflexivity].
    destruct (1 <=? WriteConcurrency opts); cbn [negb]; [|reflexivity].
    destruct (1 <=? WriteBufferSize opts); reflexivity.
Qed.

Lemma optionChecks_valid (opts : Options) :
  Forall (fun c => snd c = true) (optionChecks opts) <-> validOptions opts.
Proof.
  unfold optionChecks, validOptions. cbv zeta.
  rewrite !Forall_cons, Forall_nil. cbn [snd].
  rewrite andb_true_iff, !negb_true_iff, !Z.leb_le, orb_true_iff.
  assert (Hh : Hosts opts <> [] <-> 1 <= Z.of_nat (length (Hosts opts))).
  { destruct (Hosts opts); simpl; split; intros; try lia; congruence. }
  rewrite Hh.
  destruct (String.eqb_spec (Keyspace opts) "") as [Ek|Ek];
    [split; [intros H; decompose [and] H; discriminate | tauto]|].
  destruct (String.eqb_spec (LogTableName opts) "") as [Et|Et];
    [split; [intros H; decompose [and] H; discriminate | tauto]|].
  destruct (String.eqb_spec (ReplicationStrategy opts) "SimpleStrategy")
    as [Es|Es];
    destruct (String.eqb_spec (ReplicationStrategy opts)
                "NetworkTopologyStrategy") as [En|En];
    cbn [implb]; rewrite ?bool_decide_eq_true, ?Z.eqb_eq, ?Z.leb_le.
  - rewrite Es in En. discriminate.
  - split.
    + intros (H1 & H2 & _ & _ & _ & H6 & H7 & _ & H9 & H10 & _).
      split; [exact H1|]. split; [exact H2|]. split; [exact Ek|].
      split; [exact Et|]. split; [|split; assumption].
      left. split; [exact Es|]. split; [lia | exact H7].
    + intros (H1 & H2 & _ & _ & [(_ & H6 & H7)|(Hn & _)] & H9 & H10);
        [|congruence].
      split; [exact H1|]. split; [exact H2|]. do 2 (split; [reflexivity|]).
      split; [now left|]. split; [lia|]. split; [exact H7|].
      split; [reflexivity|]. split; [exact H9|]. split; [exact H10 | exact I].
  - split.
    + intros (H1 & H2 & _ & _ & _ & _ & _ & H8 & H9 & H10 & _).
      split; [exact H1|]. split; [exact H2|]. split; [exact Ek|].
      split; [exact Et|]. split; [|split; assumption].
      right. split; [exact En | lia].
    + intros (H1 & H2 & _ & _ & [(Hs & _)|(_ & H8)] & H9 & H10);
        [congruence|].
      split; [exact H1|]. split; [exact H2|]. do 2 (split; [reflexivity|]).
      split; [now right|]. do 2 (split; [reflexivity|]).
      split; [lia|]. split; [exact H9|]. split; [exact H10 | exact I].
  - split.
    + intros (_ & _ & _ & _ & [H|H] & _); discriminate.
    + intros (_ & _ & _ & _ & [(Hs & _)|(Hn & _)] & _); congruence.
Qed.

(** C7: [Options.Validate] returns nil exactly on the options that satisfy
    every constraint, and otherwise one [OptionError] with the message of
    the first constraint, in the order of the specification, that does not
    hold. *)
Theorem Options_Validate_first_violation (opts : Options) :
  Options_Validate opts =
    option_map OptionError (firstFailing (optionChecks opts)) /\
  (Options_Validate opts = None <-> validOptions opts).
Proof.
  split; [apply Options_Validate_checks|].
  rewrite Options_Validate_checks, <- optionChecks_valid,
    <- firstFailing_None.
  destruct (firstFailing (optionChecks opts)); cbn [option_map];
    split; congruence.
Qed.

End ValidateProofs.

(** ** The HTTP adapter *)

Module HttpProofs.
Import Go GoTime cassandra server Spec.

Lemma getQueryParam_repeated name r values :
  URLQuery r !! name = Some values -> (1 < length values)%nat ->
  getQueryParam name r = Err (wrongNumberOfValues name (length values)).
Proof.
  intros Hv Hn. unfold getQueryParam, wrongNumberOfValues, len. rewrite Hv.
  destruct (Z.eqb_spec (Z.of_nat (length values)) 1) as [E|_]; [lia|].
  reflexivity.
Qed.

Lemma getQueryParam_single name r v :
  URLQuery r !! name = Some [v] -> getQueryParam name r = Ok v.
Proof. intros Hv. unfold getQueryParam. now rewrite Hv. Qed.

Section Handler.

Variable Parse : string -> option Time.
Variable now : Time.
Variable s : LogStore.

(** A failed extraction is answered 400 "invalid query", and the store is
    not called. *)
Lemma queryGetHandler_invalid r err :
  queryFromRequest Parse now r = Err err ->
  queryGetHandler Parse now s r =
  (errorResponse StatusBadRequest
                 (logstore.mkAPIError "invalid query" (Error err)), []).
Proof. intros H. unfold queryGetHandler. now rewrite H. Qed.

(** C10: when the URL gives a required parameter more than once,
    [getQueryParam] fails on it with the "wrong number of values" error,
    and the handler answers 400 with the message "invalid query" without
    calling the store; the detail of the answer is that error when the
    parameters read before it are each given once. *)
Theorem repeated_parameter_rejected (r : Request) (name : string)
    (values : list string) :
  In name requiredParams ->
  URLQuery r !! name = Some values ->
  (1 < length values)%nat ->
  getQueryParam name r = Err (wrongNumberOfValues name (length values)) /\
  Error (wrongNumberOfValues name (length values)) =
    "query parameter " +:+ name +:+ " has wrong number of values: was: "
      +:+ Itoa (Z.of_nat (length values)) +:+ ", expected: 1" /\
  (exists detail,
      queryGetHandler Parse now s r =
      (mkResponse 400 "application/json"
                  (ErrorBody (logstore.mkAPIError "invalid query" detail)),
       [])) /\
  (Forall (fun p => exists v, URLQuery r !! p = Some [v])
          (readBefore name requiredParams) ->
   queryGetHandler Parse now s r =
   (mkResponse 400 "application/json"
      (ErrorBody (logstore.mkAPIError "invalid query"
                    (Error (wrongNumberOfValues name (length values))))),
    [])).
Proof.
  intros Hin Hv Hn.
  pose proof (getQueryParam_repeated _ _ _ Hv Hn) as Hg.
  split; [exact Hg|]. split; [reflexivity|].
  assert (Hfail : exists err, queryFromRequest Parse now r = Err err).
  { unfold queryFromRequest.
    destruct (getQueryParam "namespace" r) eqn:E1; [|eauto].
    destruct (getQueryParam "pod_name" r) eqn:E2; [|eauto].
    destruct (getQueryParam "container_name" r) eqn:E3; [|eauto].
    destruct (getQueryParam "start_time" r) eqn:E4; [|eauto].
    unfold requiredParams in Hin. cbn [In] in Hin.
    destruct Hin as [<-|[<-|[<-|[<-|[]]]]]; congruence. }
  split.
  - destruct Hfail as [err Herr]. exists (Error err).
    now apply queryGetHandler_invalid.
  - intros Hbefore.
    assert (Herr : queryFromRequest Parse now r
                   = Err (wrongNumberOfValues name (length values))).
    { unfold queryFromRequest, requiredParams in *. cbn [In] in Hin.
      destruct Hin as [<-|[<-|[<-|[<-|[]]]]]; cbn in Hbefore;
        repeat match goal with
               | H : Forall _ (_ :: _) |- _ =>
                   apply Forall_cons in H as [[? ?] H]
               end;
        repeat match goal with
               | H : URLQuery r !! ?p = Some [_] |- _ =>
                   rewrite (getQueryParam_single _ _ _ H); clear H
               end;
        now rewrite Hg. }
    now apply queryGetHandler_invalid.
Qed.

End Handler.

End HttpProofs.

(** ** The metrics middleware *)

Module MetricsProofs.
Import Go GoTime server Spec.

Section Metrics.

Variable float64 : Type.
Variable fzero : float64.
Variable fadd : float64 -> float64 -> float64.
Variable fdiv : float64 -> float64 -> float64.
Variable float64_of_int64 : Z -> float64.

#[local] Abbreviation Intercept :=
  (Intercept float64 fzero fadd fdiv float64_of_int64).
#[local] Abbreviation observeAll :=
  (observeAll float64 fzero fadd fdiv float64_of_int64).
#[local] Abbreviation NewMetricsMiddleware := (NewMetricsMiddleware float64).
#[local] Abbreviation Completion := (Completion float64).

#[local] Abbreviation sumElapsed := (sumElapsed float64 fzero fadd).
#[local] Abbreviation expected :=
  (expected float64 fzero fadd fdiv float64_of_int64).
#[local] Abbreviation entries := (entries float64).

(** Linear arithmetic with the bound of [int64] as a number. *)
Ltac int64_lia :=
  unfold id in *; cbn [length] in *;
  change (2 ^ 63) with 9223372036854775808 in *;
  change (2 ^ 64) with 18446744073709551616 in *; lia.

Lemma wrap64_small z : - 2 ^ 63 <= z < 2 ^ 63 -> wrap64 z = z.
Proof.
  intros H. unfold wrap64. rewrite Z.mod_small; int64_lia.
Qed.

Lemma observeAll_snoc mw cs c :
  observeAll mw (cs ++ [c]) = Intercept (observeAll mw cs) c.
Proof. unfold server.observeAll. now rewrite fold_left_app. Qed.

Lemma withDimensions_snoc d cs (c : Completion) :
  withDimensions float64 d (cs ++ [c]) =
  withDimensions float64 d cs ++
    (if bool_decide (dimensions float64 c = d) then [c] else []).
Proof. unfold withDimensions. now rewrite List.filter_app. Qed.

Lemma withDimensions_length d (cs : list Completion) :
  (length (withDimensions float64 d cs) <= length cs)%nat.
Proof. apply List.filter_length_le. Qed.

(** A completion leaves the entries of all other dimensions as they are. *)
Lemma Intercept_other mw (c : Completion) d :
  d <> dimensions float64 c ->
  TotalRequests float64 (Intercept mw c) !! d = TotalRequests float64 mw !! d /\
  SumResponseTime float64 (Intercept mw c) !! d
    = SumResponseTime float64 mw !! d /\
  AvgResponseTime float64 (Intercept mw c) !! d
    = AvgResponseTime float64 mw !! d.
Proof.
  intros Hne. unfold server.Intercept. cbv zeta.
  cbn [TotalRequests SumResponseTime AvgResponseTime].
  repeat split.
  - rewrite lookup_insert_ne by congruence.
    destruct (TotalRequests float64 mw !! dimensions float64 c);
      [reflexivity | now rewrite lookup_insert_ne by congruence].
  - rewrite lookup_insert_ne by congruence.
    destruct (SumResponseTime float64 mw !! dimensions float64 c);
      [reflexivity | now rewrite lookup_insert_ne by congruence].
  - now rewrite lookup_insert_ne by congruence.
Qed.

(** The entries of its own dimensions after a completion. *)
Lemma Intercept_own mw (c : Completion) :
  let d := dimensions float64 c in
  let total :=
    wrap64 (default 0 (TotalRequests float64 mw !! d) + 1) in
  let sum :=
    fadd (default fzero (SumResponseTime float64 mw !! d)) (elapsed float64 c) in
  entries (Intercept mw c) d = Some (total, sum, fdiv sum (float64_of_int64 total)).
Proof.
  cbv zeta. unfold entries, server.Intercept. cbv zeta.
  cbn [TotalRequests SumResponseTime AvgResponseTime].
  rewrite !lookup_insert_eq. cbn [default].
  destruct (TotalRequests float64 mw !! dimensions float64 c) as [n|] eqn:Et;
    destruct (SumResponseTime float64 mw !! dimensions float64 c) as [x|] eqn:Es;
    rewrite ?Et, ?Es, ?lookup_insert_eq; reflexivity.
Qed.

Lemma entries_inv mw d total sum avg :
  entries mw d = Some (total, sum, avg) ->
  TotalRequests float64 mw !! d = Some total /\
  SumResponseTime float64 mw !! d = Some sum /\
  AvgResponseTime float64 mw !! d = Some avg.
Proof.
  unfold entries.
  destruct (TotalRequests float64 mw !! d), (SumResponseTime float64 mw !! d),
    (AvgResponseTime float64 mw !! d); try discriminate.
  now intros [= -> -> ->].
Qed.

(** The state of the three maps after the requests [cs]: for every
    dimension triple they hold the expected entries, and nothing for a
    triple that has not been observed. *)
Lemma observeAll_entries (cs : list Completion) :
  Z.of_nat (length cs) < 2 ^ 63 ->
  forall d,
    entries (observeAll NewMetricsMiddleware cs) d = expected d cs /\
    (withDimensions float64 d cs = [] ->
     TotalRequests float64 (observeAll NewMetricsMiddleware cs) !! d = None /\
     SumResponseTime float64 (observeAll NewMetricsMiddleware cs) !! d = None /\
     AvgResponseTime float64 (observeAll NewMetricsMiddleware cs) !! d = None).
Proof.
  induction cs as [|c cs IH] using rev_ind; intros Hlen d.
  - split; [reflexivity|]. intros _. repeat split; apply lookup_empty.
  - rewrite length_app in Hlen. cbn [length] in Hlen.
    assert (Hlen' : Z.of_nat (length cs) < 2 ^ 63) by int64_lia.
    specialize (IH Hlen'). rewrite observeAll_snoc.
    set (mw := observeAll NewMetricsMiddleware cs) in *.
    unfold expected. rewrite withDimensions_snoc.
    destruct (bool_decide (dimensions float64 c = d)) eqn:Ed.
    + apply bool_decide_eq_true in Ed. subst d.
      destruct (IH (dimensions float64 c)) as [IHe IHn].
      split; [|intros E; symmetry in E; now apply app_cons_not_nil in E].
      rewrite Intercept_own.
      pose proof (withDimensions_length (dimensions float64 c) cs) as Hle.
      unfold expected in IHe.
      destruct (withDimensions float64 (dimensions float64 c) cs)
        as [|c0 mine] eqn:Em.
      * destruct (IHn eq_refl) as (-> & -> & _). cbn [default app length].
        rewrite wrap64_small by int64_lia. reflexivity.
      * apply entries_inv in IHe as (-> & -> & _). cbn [default].
        rewrite wrap64_small by int64_lia. unfold id.
        replace (Z.of_nat (length (c0 :: mine)) + 1)
          with (Z.of_nat (length ((c0 :: mine) ++ [c])))
          by (rewrite length_app; cbn [length]; lia).
        assert (Es : fadd (sumElapsed (c0 :: mine)) (elapsed float64 c)
                     = sumElapsed ((c0 :: mine) ++ [c])).
        { unfold sumElapsed. now rewrite map_app, fold_left_app. }
        rewrite Es. cbn [app]. reflexivity.
    + apply bool_decide_eq_false in Ed. rewrite app_nil_r.
      destruct (Intercept_other mw c d) as (Ht & Hs & Ha); [congruence|].
      destruct (IH d) as [IHe IHn]. split.
      * unfold entries in *. rewrite Ht, Hs, Ha. exact IHe.
      * intros E. rewrite Ht, Hs, Ha. now apply IHn.
Qed.

(** C9: after any sequence of completed requests (fewer than 2^63 of them,
    the range of the counter), for every dimension triple that has been
    observed, [total_requests] is the number M of the requests with these
    dimensions, [sum_response_time] the sum of their elapsed times and
    [avg_response_time] that sum divided by M; and a completion changes
    the three entries of its own triple only. *)
Theorem metrics_invariant (cs : list Completion) (d : MetricDimensions) :
  Z.of_nat (length cs) < 2 ^ 63 ->
  withDimensions float64 d cs <> [] ->
  let mw := observeAll NewMetricsMiddleware cs in
  let mine := withDimensions float64 d cs in
  let M := Z.of_nat (length mine) in
  TotalRequests float64 mw !! d = Some M /\
  SumResponseTime float64 mw !! d = Some (sumElapsed mine) /\
  AvgResponseTime float64 mw !! d
    = Some (fdiv (sumElapsed mine) (float64_of_int64 M)) /\
  (forall (c : Completion) d',
      d' <> dimensions float64 c ->
      TotalRequests float64 (Intercept mw c) !! d'
        = TotalRequests float64 mw !! d' /\
      SumResponseTime float64 (Intercept mw c) !! d'
        = SumResponseTime float64 mw !! d' /\
      AvgResponseTime float64 (Intercept mw c) !! d'
        = AvgResponseTime float64 mw !! d').
Proof.
  intros Hlen Hobs mw mine M.
  destruct (observeAll_entries cs Hlen d) as [He _].
  unfold expected in He. fold mine in He.
  destruct mine as [|c0 rest] eqn:Em; [contradiction|].
  apply entries_inv in He as (Ht & Hs & Ha).
  split; [exact Ht|]. split; [exact Hs|]. split; [exact Ha|].
  intros c d' Hne. now apply Intercept_other.
Qed.

End Metrics.

End MetricsProofs.

(** ** Instances of the theorems above *)

Module Witnesses.
Import Go GoTime cassandra server Spec.

Lemma metrics_invariant_witness :
  let d := mkDimensions "POST" "/write" 200 in
  let mw :=
    observeAll Q 0%Q Qplus Qdiv inject_Z (NewMetricsMiddleware Q)
               threeRequests in
  TotalRequests Q mw !! d = Some 2 /\
  SumResponseTime Q mw !! d = Some (Qplus (Qplus 0 (1 # 4)) (3 # 4)) /\
  AvgResponseTime Q mw !! d
    = Some (Qdiv (Qplus (Qplus 0 (1 # 4)) (3 # 4)) (inject_Z 2)).
Proof.
  cbv zeta.
  destruct (MetricsProofs.metrics_invariant Q 0%Q Qplus Qdiv inject_Z
              threeRequests (mkDimensions "POST" "/write" 200))
    as (H1 & H2 & H3 & _).
  - reflexivity.
  - vm_compute. discriminate.
  - split; [exact H1|]. split; [exact H2 | exact H3].
Defined.

Lemma repeated_parameter_rejected_witness :
  getQueryParam "namespace" twiceNamespace =
    Err (errorString
           "query parameter namespace has wrong number of values: was: 2, expected: 1")
  /\
  queryGetHandler parseNothing oneUTC readyStore twiceNamespace =
    (mkResponse 400 "application/json"
       (ErrorBody
          (logstore.mkAPIError "invalid query"
             "query parameter namespace has wrong number of values: was: 2, expected: 1")),
     []).
Proof.
  destruct (HttpProofs.repeated_parameter_rejected parseNothing oneUTC
              readyStore twiceNamespace "namespace"
              ["default"; "kube-system"])
    as (H1 & _ & _ & H4).
  - left. reflexivity.
  - vm_compute. reflexivity.
  - simpl. lia.
  - split; [exact H1 | apply H4; constructor].
Defined.

End Witnesses.

(** * Further properties of the code *)

(** ** More on the query splitter *)

Module SplitterMore.
Import Go GoTime cassandra Spec SplitterProofs.

#[local] Arguments date : simpl never.
#[local] Arguments daysBetween : simpl never.

Lemma Location_eqb_refl l : Location_eqb l l = true.
Proof. destruct l; [reflexivity | apply Pos.eqb_refl]. Qed.

(** A period that crosses a date border is split by the loop, whatever the
    locations of its end points. *)
Lemma divideByDays_crossing (p : timePeriod) :
  instant (start p) <= instant (end_ p) ->
  instant (date (start p)) <> instant (date (end_ p)) ->
  splitsByDays (start p) (end_ p) (divideByDays p).
Proof.
  intros Hle E. rewrite divideByDays_shape.
  pose proof (daysBetween_nonneg _ _ Hle) as Hnn.
  rewrite eqb_date. apply Z.eqb_neq in E as E'. rewrite E', andb_false_l.
  assert (Hpos : 0 < daysBetween (start p) (end_ p)).
  { destruct (Z.eq_dec (daysBetween (start p) (end_ p)) 0) as [H0|H0];
      [apply same_date_iff in H0; contradiction | lia]. }
  set (n := Z.to_nat (daysBetween (start p) (end_ p))).
  assert (Hd : daysBetween (start p) (end_ p) = Z.of_nat n) by lia.
  assert (Hn : exists k, n = S k) by (exists (Nat.pred n); lia).
  split.
  - rewrite chain_length. lia.
  - destruct Hn as [k ->]. simpl. eauto.
  - eexists. split; [apply chain_last | reflexivity].
  - intros i q. apply chain_ends.
  - intros i q. apply chain_starts.
  - intros i q r. apply chain_adjacent, Hd.
  - intros x. apply chain_union; [exact Hd | exact Hle | lia].
  - apply chain_chronological, Hd.
Qed.

Lemma divideByDays_splits (p : timePeriod) :
  instant (start p) <= instant (end_ p) ->
  Location_eqb (loc (start p)) (loc (end_ p)) = true \/
  instant (date (start p)) <> instant (date (end_ p)) ->
  splitsByDays (start p) (end_ p) (divideByDays p).
Proof.
  intros Hle [Hloc|E].
  - now apply divideByDays_same_location.
  - now apply divideByDays_crossing.
Qed.

(** X1: for a period with start <= end, [divideByDays] returns the split
    into days that its comment describes (one period per UTC day touched,
    from the start to the end, adjacent and disjoint) exactly when the two
    end points carry the same location or fall on different UTC days. *)
Theorem divideByDays_splits_iff (p : timePeriod) :
  instant (start p) <= instant (end_ p) ->
  splitsByDays (start p) (end_ p) (divideByDays p) <->
  Location_eqb (loc (start p)) (loc (end_ p)) = true \/
  instant (date (start p)) <> instant (date (end_ p)).
Proof.
  intros Hle. split.
  - intros HS.
    destruct (Z.eq_dec (instant (date (start p))) (instant (date (end_ p))))
      as [E|E]; [left | now right].
    destruct (Location_eqb (loc (start p)) (loc (end_ p))) eqn:El;
      [reflexivity | exfalso].
    destruct (split_first _ _ _ HS) as (q & Hq & Hs).
    rewrite divideByDays_shape, eqb_date, El, andb_false_r in Hq.
    apply same_date_iff in E. rewrite E in Hq. cbn in Hq.
    injection Hq as <-. cbn [start] in Hs.
    rewrite <- Hs in El. unfold date, Truncate in El. cbn in El.
    now rewrite Location_eqb_refl in El.
  - now apply divideByDays_splits.
Qed.

(** X2: on every period, also one whose end points are in the wrong order
    or carry different locations, [divideByDays] returns at least one
    period, the last one ends at the end of the input, every period lies
    within one UTC day, and each period ends before the next one starts. *)
Theorem divideByDays_every_input (p : timePeriod) :
  (exists q, last (divideByDays p) = Some q /\ end_ q = end_ p) /\
  Forall (fun q => instant (date (start q)) = instant (date (end_ q)))
         (divideByDays p) /\
  chronological (divideByDays p).
Proof.
  split; [|split].
  - rewrite divideByDays_shape. destruct (eqb _ _).
    + exists p. now split.
    + eexists. split; [apply chain_last | reflexivity].
  - apply divideByDays_within_day.
  - apply divideByDays_chronological.
Qed.

Lemma eqb_refl t : eqb t t = true.
Proof.
  unfold eqb. now rewrite Z.eqb_refl, Location_eqb_refl.
Qed.

Lemma dayChain_fixed n : forall t,
  Forall (fun q => divideByDays q = [q]) (dayChain t n).
Proof.
  induction n as [|n IH]; intros t; cbn [dayChain]; constructor; [|apply IH].
  unfold divideByDays. cbn [start end_].
  rewrite eqb_date, date_endOfDay, Z.eqb_refl. cbn [Add loc].
  now rewrite Location_eqb_refl.
Qed.

(** X3: splitting is idempotent: every period that [divideByDays] returns
    is returned as it is when it is split again. *)
Theorem divideByDays_idempotent (p : timePeriod) :
  Forall (fun q => divideByDays q = [q]) (divideByDays p).
Proof.
  rewrite divideByDays_shape.
  destruct (eqb (date (start p)) (date (end_ p))) eqn:E.
  - repeat constructor. unfold divideByDays. now rewrite E.
  - apply Forall_app. split; [apply dayChain_fixed|].
    repeat constructor. unfold divideByDays. cbn [start end_].
    now rewrite date_date, eqb_refl.
Qed.

Lemma Query_Validate_lt (q : logstore.Query) :
  logstore.Query_Validate q = None ->
  instant (logstore.StartTime q) < instant (logstore.EndTime q).
Proof.
  intros Hv. unfold logstore.Query_Validate in Hv.
  repeat match type of Hv with
         | (if ?c then _ else _) = None => destruct c eqn:?; [discriminate|]
         end.
  match goal with H : negb (Before _ _) = false |- _ =>
    apply negb_false_iff, Z.ltb_lt in H; exact H end.
Qed.

(** X4: for a query that validates and whose start and end carry the same
    location or fall on different UTC days, [Split] returns one sub-query
    per UTC day touched, each with the namespace, pod and container of the
    query and a window within one UTC day, in chronological order, and the
    windows cover exactly the interval of the query. *)
Theorem Split_valid_query (q : logstore.Query) :
  logstore.Query_Validate q = None ->
  Location_eqb (loc (logstore.StartTime q)) (loc (logstore.EndTime q)) = true
  \/ instant (date (logstore.StartTime q))
     <> instant (date (logstore.EndTime q)) ->
  Z.of_nat (length (Split q)) =
    daysBetween (logstore.StartTime q) (logstore.EndTime q) + 1 /\
  Forall (fun sub =>
            logstore.qNamespace sub = logstore.qNamespace q /\
            logstore.qPodName sub = logstore.qPodName q /\
            logstore.qContainerName sub = logstore.qContainerName q /\
            instant (date (logstore.StartTime sub)) =
            instant (date (logstore.EndTime sub)))
         (Split q) /\
  chronological (map window (Split q)) /\
  forall x, Exists (inPeriod x) (map window (Split q)) <->
            instant (logstore.StartTime q) <= x <= instant (logstore.EndTime q).
Proof.
  intros Hv Hcase. pose proof (Query_Validate_lt q Hv) as Hlt.
  assert (HS : splitsByDays (logstore.StartTime q) (logstore.EndTime q)
                 (divideByDays (window q))).
  { apply (divideByDays_splits (window q)); [simpl; lia | exact Hcase]. }
  split; [|split; [|split]].
  - rewrite <- (split_count _ _ _ HS), <- Split_windows.
    now rewrite length_map.
  - pose proof (Split_fields q) as HF.
    pose proof (divideByDays_within_day (window q)) as HD.
    rewrite <- Split_windows in HD. rewrite Forall_map in HD.
    rewrite Forall_forall in *. intros sub Hsub.
    destruct (HF sub Hsub) as (? & ? & ?). repeat split; auto.
    apply (HD sub Hsub).
  - rewrite Split_windows. apply divideByDays_chronological.
  - rewrite Split_windows. apply (split_union _ _ _ HS).
Qed.

(** *** The partition that a sub-query reads *)

Lemma dayChain_locs n : forall t,
  Forall (fun q => loc (start q) = loc t) (dayChain t n).
Proof.
  induction n as [|n IH]; intros t; cbn [dayChain]; constructor;
    [reflexivity|].
  eapply Forall_impl; [apply IH|]. cbn beta. intros q ->.
  unfold date, Truncate. reflexivity.
Qed.

(** The start of every period carries the location of one of the end
    points. *)
Lemma divideByDays_locs (p : timePeriod) :
  Forall (fun q => loc (start q) = loc (start p) \/
                   loc (start q) = loc (end_ p))
         (divideByDays p).
Proof.
  rewrite divideByDays_shape. destruct (eqb _ _).
  - repeat constructor.
  - apply Forall_app. split.
    + eapply Forall_impl; [apply dayChain_locs|]. cbn beta.
      intros r Hr. now left.
    + constructor; [|constructor]. right. unfold date, Truncate.
      reflexivity.
Qed.

Lemma formatDate_UTC t : loc t = UTC -> formatDate t = instant t / Day.
Proof.
  intros E. unfold formatDate. rewrite E. cbn [zoneOffset].
  now rewrite Z.mul_0_l, Z.add_0_r.
Qed.

(** Within a period that lies on one UTC day, every instant is of that
    day. *)
Lemma within_day x (q : timePeriod) :
  instant (date (start q)) = instant (date (end_ q)) ->
  inPeriod x q -> x / Day = instant (start q) / Day.
Proof.
  rewrite !date_instant. intros E [H1 H2].
  pose proof Day_pos as HD.
  assert (E' : instant (start q) / Day = instant (end_ q) / Day) by nia.
  pose proof (Z.div_le_mono _ _ Day HD H1).
  pose proof (Z.div_le_mono _ _ Day HD H2). lia.
Qed.

(** The date that a sub-query of an all-UTC query binds is the UTC day of
    every instant of its window. *)
Lemma Split_date (q sub : logstore.Query) x :
  loc (logstore.StartTime q) = UTC -> loc (logstore.EndTime q) = UTC ->
  In sub (Split q) -> inPeriod x (window sub) ->
  formatDate (logstore.StartTime sub) = x / Day.
Proof.
  intros Hs He Hin Hx.
  pose proof (divideByDays_locs (window q)) as HL.
  pose proof (divideByDays_within_day (window q)) as HD.
  rewrite <- Split_windows in HL, HD. rewrite Forall_map in HL, HD.
  rewrite Forall_forall in HL, HD.
  apply list_elem_of_In in Hin.
  specialize (HL sub Hin). specialize (HD sub Hin). cbn [window start end_] in HL.
  rewrite Hs, He in HL.
  rewrite formatDate_UTC by (destruct HL; assumption).
  symmetry. apply (within_day x (window sub) HD Hx).
Qed.

(** X5: an entry with a UTC timestamp is found in the partition that a
    query reads. For a query that validates, with UTC start and end, and
    an entry of the same namespace, pod and container whose UTC timestamp
    lies in the interval of the query, some sub-query has a window that
    holds the timestamp, and every such sub-query binds the partition key
    (namespace, pod, container, date) that the insert of the entry binds. *)
Theorem query_reads_partition_of_entry (q : logstore.Query)
    (l : logstore.LogEntry) :
  logstore.Query_Validate q = None ->
  loc (logstore.StartTime q) = UTC -> loc (logstore.EndTime q) = UTC ->
  loc (logstore.Time_ l) = UTC ->
  logstore.Namespace (logstore.Kubernetes l) = logstore.qNamespace q ->
  logstore.PodName (logstore.Kubernetes l) = logstore.qPodName q ->
  logstore.ContainerName (logstore.Kubernetes l) = logstore.qContainerName q ->
  instant (logstore.StartTime q) <= instant (logstore.Time_ l)
    <= instant (logstore.EndTime q) ->
  (exists sub, In sub (Split q) /\
               inPeriod (instant (logstore.Time_ l)) (window sub)) /\
  (forall sub, In sub (Split q) ->
               inPeriod (instant (logstore.Time_ l)) (window sub) ->
               take 4 (queryArgs sub) = take 4 (insertArgs l)).
Proof.
  intros Hv Hs He Hl Hn Hp Hc Hin. split.
  - pose proof (Query_Validate_lt q Hv) as Hlt.
    assert (HS : splitsByDays (logstore.StartTime q) (logstore.EndTime q)
                   (divideByDays (window q))).
    { apply (divideByDays_splits (window q)); [simpl; lia|]. left.
      cbn [window start end_]. now rewrite Hs, He. }
    apply (split_union _ _ _ HS) in Hin. rewrite <- Split_windows in Hin.
    apply Exists_exists in Hin as (w & Hw & Hx).
    apply list_elem_of_fmap in Hw as (sub & -> & Hsub).
    apply list_elem_of_In in Hsub. now exists sub.
  - intros sub Hsub Hx.
    pose proof (Split_fields q) as HF. rewrite Forall_forall in HF.
    destruct (HF sub (proj2 (list_elem_of_In _ _) Hsub)) as (E1 & E2 & E3).
    unfold queryArgs, insertArgs. cbn [take].
    rewrite (Split_date q sub _ Hs He Hsub Hx), (formatDate_UTC _ Hl).
    now rewrite E1, E2, E3, Hn, Hp, Hc.
Qed.

(** X6: an entry whose timestamp carries an offset that puts it on another
    calendar day than the UTC day of its instant is written to a partition
    that no sub-query of an all-UTC query reads for it: every sub-query
    whose window holds the timestamp binds another date than the insert of
    the entry. *)
Theorem offset_entry_missed (q : logstore.Query) (l : logstore.LogEntry) :
  loc (logstore.StartTime q) = UTC -> loc (logstore.EndTime q) = UTC ->
  formatDate (logstore.Time_ l) <> instant (logstore.Time_ l) / Day ->
  forall sub, In sub (Split q) ->
              inPeriod (instant (logstore.Time_ l)) (window sub) ->
              queryArgs sub !! 3%nat <> insertArgs l !! 3%nat.
Proof.
  intros Hs He Hd sub Hsub Hx. unfold queryArgs, insertArgs.
  cbn [lookup list_lookup].
  rewrite (Split_date q sub _ Hs He Hsub Hx). congruence.
Qed.

End SplitterMore.

(** ** More on queries *)

Module QueryMore.
Import Go GoTime cassandra Spec Terms.

Section Query.

Variable DriverQuery :
  string -> list value -> result (list (gmap string value)).
Variable options : Options.

#[local] Abbreviation answers := (answers DriverQuery options).

(** The loop over sub-queries that are answered goes on with the rows
    added. *)
Lemma queryLoop_app pre : forall rowss rest acc,
  Forall2 answers pre rowss ->
  queryLoop DriverQuery options (pre ++ rest) acc =
  queryLoop DriverQuery options rest (acc ++ concat rowss).
Proof.
  induction pre as [|sub pre IH]; intros rowss rest acc HF.
  - apply Forall2_nil_inv_l in HF as ->. simpl. now rewrite app_nil_r.
  - apply Forall2_cons_inv_l in HF as (rows & rowss' & Ha & HF & ->).
    cbn [app queryLoop].
    rewrite (QueryProofs.executeQuery_answers _ _ _ _ Ha). cbn [bind].
    rewrite (IH _ _ _ HF). cbn [concat]. now rewrite app_assoc.
Qed.

(** X7: when the driver fails on a sub-query, after answering the ones
    before it, [Query] returns no rows but a [QueryError] that wraps the
    error of the driver, whose text is "query failed: query execution: "
    followed by the text of that error, whatever the driver would answer
    to the later sub-queries. *)
Theorem Query_fails_on_first_error (query sub : logstore.Query)
    (pre post : list logstore.Query) (rowss : list (list logstore.LogRow))
    (err : error) :
  Split query = pre ++ sub :: post ->
  Forall2 answers pre rowss ->
  DriverQuery (logQueryStatement options) (queryArgs sub) = Err err ->
  LogStore_Query DriverQuery options query =
    Returned (Err (QueryError "query execution" err)) /\
  Error (QueryError "query execution" err) =
    "query failed: query execution: " +:+ Error err.
Proof.
  intros HS HF He. split; [|reflexivity].
  unfold LogStore_Query. rewrite HS, (queryLoop_app _ _ _ _ HF).
  cbn [queryLoop]. unfold executeQuery. now rewrite He.
Qed.

Lemma toLogRow_malformed row :
  malformed row -> exists msg, toLogRow row = Panicked msg.
Proof.
  unfold toLogRow. intros [Ht|Hm].
  - destruct (row !! "time") as [[]|]; eauto. now destruct (Ht t).
  - destruct (row !! "time") as [[]|]; eauto.
    destruct (row !! "message") as [[]|]; eauto. now destruct (Hm s).
Qed.

Lemma toLogRow_cases row :
  (exists r, toLogRow row = Returned r) \/
  (exists msg, toLogRow row = Panicked msg).
Proof.
  unfold toLogRow.
  destruct (row !! "time") as [[]|]; eauto.
  destruct (row !! "message") as [[]|]; eauto.
Qed.

Lemma toLogRows_malformed results :
  Exists malformed results -> exists msg, toLogRows results = Panicked msg.
Proof.
  induction 1 as [row rest Hm | row rest _ IH]; cbn [toLogRows].
  - destruct (toLogRow_malformed row Hm) as [msg ->]. now exists msg.
  - destruct (toLogRow_cases row) as [[r ->]|[msg ->]]; [|now exists msg].
    destruct IH as [msg ->]. now exists msg.
Qed.

(** X8: when the driver answers a sub-query with a row that has no
    [time.Time] in its "time" column or no string in its "message" column,
    [Query] does not return: the type assertion on the row panics. *)
Theorem Query_panics_on_malformed_row (query sub : logstore.Query)
    (pre post : list logstore.Query) (rowss : list (list logstore.LogRow))
    (results : list (gmap string value)) :
  Split query = pre ++ sub :: post ->
  Forall2 answers pre rowss ->
  DriverQuery (logQueryStatement options) (queryArgs sub) = Ok results ->
  Exists malformed results ->
  exists msg, LogStore_Query DriverQuery options query = Panicked msg.
Proof.
  intros HS HF Hr Hm. unfold LogStore_Query.
  rewrite HS, (queryLoop_app _ _ _ _ HF). cbn [queryLoop].
  unfold executeQuery. rewrite Hr.
  destruct (toLogRows_malformed results Hm) as [msg ->]. now exists msg.
Qed.

End Query.

End QueryMore.

(** ** More on writes *)

Module WriteMore.
Import Go GoTime cassandra Spec store.

Section Write.

Variable Execute : string -> list value -> option error.
Variable options : Options.

#[local] Abbreviation yield := (yield Execute options).

(** On a running pool [Write] returns. *)
Lemma Write_total (entries : list logstore.LogEntry) (w : World) :
  running w ->
  exists w',
    LogStore_Write Execute options entries w =
    Returned (option_map InsertError (firstError (map yield entries)), w').
Proof.
  intros Hw. unfold LogStore_Write.
  destruct (WriteProofs.submitAll_ok Execute options entries w Hw)
    as (w1 & Hsub & Hw1 & Hr1 & _ & HF).
  rewrite Hsub. cbn [bind].
  destruct (WriteProofs.awaitAll_ok Execute
              (seq (length (resultChans w)) (length entries))
              (map yield entries) w1 Hw1) as (w2 & Haw & _).
  - apply NoDup_ListNoDup, List.seq_NoDup.
  - apply Forall2_fmap_r.
    eapply Forall2_impl; [exact HF|]. now intros ch logEntry.
  - now exists w2.
Qed.

(** The inserts of a batch on a stopped pool: each one gets a channel that
    holds the rejection, and the pool is left as it is. *)
Lemma submitAll_stopped entries : forall w,
  started (pool w) = false ->
  submitAll Execute options entries w =
  Returned (seq (length (resultChans w)) (length entries),
            mkWorld (pool w)
                    (resultChans w
                       ++ repeat [Some writeRejected] (length entries))
                    (received w)).
Proof.
  induction entries as [|logEntry rest IH]; intros w Hst.
  - cbn. rewrite app_nil_r. now destruct w.
  - cbn [submitAll]. unfold LogStore_insert, writerPool_write.
    rewrite Hst. cbn [negb bind]. rewrite IH by exact Hst.
    cbn [bind pool resultChans received length seq repeat].
    rewrite length_app, <- app_assoc. cbn [length app].
    now rewrite Nat.add_1_r.
Qed.

(** A receive from a channel that holds an error ends the second loop of
    [Write]. *)
Lemma awaitAll_filled (e : error) ch rest (w : World) :
  resultChans w !! ch = Some [Some e] ->
  awaitAll Execute (ch :: rest) w =
  Returned (Some (InsertError e),
            mkWorld (pool w) (<[ch := []]> (resultChans w))
                    (received w ++ [ch])).
Proof.
  intros Hch. cbn [awaitAll]. unfold receive, takeSlot.
  now rewrite Hch.
Qed.

(** X9: [Write] on a store whose pool has been stopped fails fast: for a
    batch that is not empty, and whatever the driver, it returns the
    [InsertError] of the rejection "write rejected: writerPool has been
    stopped", having received from the channel of the first entry only; the
    pool, with its work queue, is left as it is. *)
Theorem Write_rejected_after_stop (entries : list logstore.LogEntry)
    (w : World) :
  started (pool w) = false ->
  entries <> [] ->
  exists w',
    LogStore_Write Execute options entries w =
      Returned (Some (InsertError writeRejected), w') /\
    pool w' = pool w /\
    received w' = received w ++ [length (resultChans w)].
Proof.
  intros Hst Hne. destruct entries as [|logEntry rest]; [contradiction|].
  unfold LogStore_Write. rewrite submitAll_stopped by exact Hst.
  cbn [bind length seq repeat].
  rewrite (awaitAll_filled writeRejected).
  - eexists. split; [reflexivity|]. now split.
  - cbn [resultChans]. rewrite lookup_app_r by lia.
    now rewrite Nat.sub_diag.
Qed.

(** The inserts of a batch on a pool that no writer serves: they are
    buffered, each with an empty channel, or the send on the work channel
    waits for ever. *)
Lemma submitAll_unserved entries : forall w,
  started (pool w) = true -> anyRunning (pool w) = false ->
  submitAll Execute options entries w = Blocked \/
  exists queue,
    submitAll Execute options entries w =
    Returned (seq (length (resultChans w)) (length entries),
              mkWorld (mkPool queue (workChanCap (pool w)) (writers (pool w))
                              true)
                      (resultChans w ++ repeat [] (length entries))
                      (received w)).
Proof.
  induction entries as [|logEntry rest IH]; intros w Hst Hrun.
  - right. exists (workChan (pool w)). cbn. rewrite app_nil_r.
    destruct w as [[] ? ?]. cbn in *. now subst.
  - cbn [submitAll]. unfold LogStore_insert, writerPool_write, sendWork.
    rewrite Hst. cbn [negb pool resultChans received workChan workChanCap
                        writers started].
    rewrite Hrun, Hst.
    destruct (len _ <=? _); [|now left]. cbn [bind].
    match goal with |- context [submitAll _ _ rest ?w1] =>
      destruct (IH w1) as [->|[queue ->]]; [reflexivity | exact Hrun | |]
    end; [now left | right].
    exists queue. cbn [bind pool resultChans received workChanCap writers
                         length seq repeat].
    rewrite length_app, <- app_assoc. cbn [length app].
    now rewrite Nat.add_1_r.
Qed.

(** X10: on a pool that has been started without any running writer (a
    store made with a write concurrency of 0), [Write] of a batch that is
    not empty never returns: either the send on the work channel or the
    receive from the first result channel waits for ever. *)
Theorem Write_without_writers_blocks (entries : list logstore.LogEntry)
    (w : World) :
  started (pool w) = true ->
  anyRunning (pool w) = false ->
  entries <> [] ->
  LogStore_Write Execute options entries w = Blocked.
Proof.
  intros Hst Hrun Hne. destruct entries as [|logEntry rest]; [contradiction|].
  unfold LogStore_Write.
  destruct (submitAll_unserved (logEntry :: rest) w Hst Hrun)
    as [->|[queue ->]]; [reflexivity|].
  cbn [bind length seq awaitAll repeat]. unfold receive.
  cbn [resultChans pool received].
  rewrite lookup_app_r by lia. rewrite Nat.sub_diag. cbn [lookup list_lookup].
  unfold anyRunning in *. cbn [writers]. now rewrite Hrun.
Qed.

End Write.

End WriteMore.

(** ** The schema *)

Module SchemaProofs.
Import Go GoTime cassandra Spec store Terms.

Lemma append_assoc (a b c : string) : (a +:+ b) +:+ c = a +:+ (b +:+ c).
Proof.
  induction a as [|x a IH]; [reflexivity|].
  change (String x ((a +:+ b) +:+ c) = String x (a +:+ (b +:+ c))).
  now rewrite IH.
Qed.

Lemma append_nil_r (a : string) : a +:+ "" = a.
Proof.
  induction a as [|x a IH]; [reflexivity|].
  change (String x (a +:+ "") = String x a). now rewrite IH.
Qed.

(** After the first key, the loop appends a separator and the text of each
    key. *)
Lemma writeFactors_next r keys : forall i buf,
  writeFactors r (S i) keys buf =
  buf +:+ String.concat ""
            (map (fun key => ", " +:+ factorText r key) keys).
Proof.
  induction keys as [|key rest IH]; intros i buf; cbn [writeFactors map].
  - cbn. now rewrite append_nil_r.
  - rewrite IH. cbn [Nat.eqb negb]. unfold factorText.
    destruct rest as [|key' rest'].
    + cbn [map String.concat]. now rewrite append_nil_r, append_assoc.
    + cbn [map String.concat]. now rewrite !append_assoc.
Qed.

Lemma concat_separated (texts : list string) :
  String.concat ""
    (map (fun text => ", " +:+ text) texts) =
  match texts with
  | [] => ""
  | _ => ", " +:+ String.concat ", " texts
  end.
Proof.
  induction texts as [|text rest IH]; [reflexivity|].
  cbn [map]. destruct rest as [|text' rest'].
  - reflexivity.
  - change (String.concat "" ((", " +:+ text) :: map (fun t => ", " +:+ t) (text' :: rest')))
      with ((", " +:+ text) +:+ "" +:+
            String.concat "" (map (fun t => ", " +:+ t) (text' :: rest'))).
    rewrite IH.
    change (String.concat ", " (text :: text' :: rest'))
      with (text +:+ ", " +:+ String.concat ", " (text' :: rest')).
    now rewrite !append_assoc.
Qed.

(** The text written for the sorted keys: the texts of the keys, joined
    by ", ". *)
Lemma writeFactors_join r keys :
  writeFactors r 0 keys "" =
  String.concat ", " (map (factorText r) keys).
Proof.
  destruct keys as [|key rest]; [reflexivity|].
  cbn [writeFactors Nat.eqb negb]. rewrite writeFactors_next.
  fold (factorText r key).
  rewrite <- (map_map (factorText r) (fun text => ", " +:+ text)).
  rewrite concat_separated. cbn [map].
  destruct rest as [|key' rest']; [now rewrite append_nil_r|].
  cbn [map]. reflexivity.
Qed.

Lemma sortStrings_sorted keys : StronglySorted String.le (sortStrings keys).
Proof. apply (StronglySorted_merge_sort String.le). Qed.

Lemma sortStrings_Permutation keys : sortStrings keys ≡ₚ keys.
Proof. apply merge_sort_Permutation. Qed.

(** [sort.Strings] gives one result for all orders of the same keys. *)
Lemma sortStrings_order keys keys' :
  keys ≡ₚ keys' -> sortStrings keys = sortStrings keys'.
Proof.
  intros HP. apply (StronglySorted_unique String.le);
    [apply sortStrings_sorted | apply sortStrings_sorted |].
  now rewrite !sortStrings_Permutation.
Qed.

Lemma StronglySorted_strict keys :
  StronglySorted String.le keys -> NoDup keys ->
  StronglySorted (fun a b => String.ltb a b = true) keys.
Proof.
  induction 1 as [|key rest _ IH HF]; intros HN; constructor.
  - apply IH. now apply NoDup_cons in HN as [_ HN].
  - apply NoDup_cons in HN as [Hnot _].
    rewrite Forall_forall in *. intros k Hk. specialize (HF k Hk).
    unfold String.le, String.leb in HF. unfold String.ltb.
    destruct (String.compare key k) eqn:E; [|reflexivity|contradiction].
    apply String.compare_eq_iff in E. now subst k.
Qed.

(** Reading the factor of each key of the map gives back its entries. *)
Lemma entries_of_keys (r : gmap string Z) :
  map (fun key => (key, default 0 (r !! key))) (map_to_list r).*1
  = map_to_list r.
Proof.
  rewrite <- list_fmap_compose.
  rewrite <- (list_fmap_id (map_to_list r)) at 2.
  apply Forall_fmap_ext, Forall_forall. intros [key n] Hin.
  apply elem_of_map_to_list in Hin. cbn. now rewrite Hin.
Qed.

Lemma keys_of_entries (r : gmap string Z) keys :
  (map (fun key => (key, default 0 (r !! key))) keys).*1 = keys.
Proof.
  induction keys as [|key rest IH]; [reflexivity|].
  cbn. now rewrite IH.
Qed.

(** X15: the text of a replication factor map does not depend on the order
    in which the map is ranged over: it lists every entry of the map once,
    as ['key': factor], in strictly ascending order of the keys, joined by
    ", ". *)
Theorem ReplicationFactorMap_String_sorted (r : gmap string Z)
    (ranged : list string) :
  ranged ≡ₚ (map_to_list r).*1 ->
  (exists entries : list (string * Z),
      entries ≡ₚ map_to_list r /\
      StronglySorted (fun a b => String.ltb a b = true) entries.*1 /\
      ReplicationFactorMap_String ranged r =
        String.concat ", "
          (map (fun e => "'" +:+ fst e +:+ "': " +:+ Itoa (snd e)) entries)) /\
  (forall ranged',
      ranged' ≡ₚ (map_to_list r).*1 ->
      ReplicationFactorMap_String ranged' r =
      ReplicationFactorMap_String ranged r).
Proof.
  intros HP. split.
  - exists (map (fun key => (key, default 0 (r !! key))) (sortStrings ranged)).
    assert (Hkeys : sortStrings ranged ≡ₚ (map_to_list r).*1)
      by now rewrite sortStrings_Permutation.
    split; [|split].
    + rewrite <- (entries_of_keys r). now apply Permutation_map.
    + rewrite keys_of_entries. apply StronglySorted_strict.
      * apply sortStrings_sorted.
      * rewrite Hkeys. apply NoDup_fst_map_to_list.
    + unfold ReplicationFactorMap_String. rewrite writeFactors_join.
      now rewrite map_map.
  - intros ranged' HP'. unfold ReplicationFactorMap_String.
    rewrite (sortStrings_order ranged' ranged); [reflexivity|].
    now rewrite HP, HP'.
Qed.

End SchemaProofs.

(** ** The life cycle of the store *)

Module StoreProofs.
Import Go GoTime cassandra Spec store.

Lemma valid_of_Validate (options : Options) :
  Options_Validate options = None -> validOptions options.
Proof.
  intros Hv. rewrite ValidateProofs.Options_Validate_checks in Hv.
  apply ValidateProofs.optionChecks_valid, ValidateProofs.firstFailing_None.
  now destruct (firstFailing (optionChecks options)).
Qed.

Lemma singleton_of_size (m : gmap string Z) key n :
  size m = 1%nat -> m !! key = Some n -> m = {[ key := n ]}.
Proof.
  intros Hs Hk. rewrite <- (insert_delete_id m key n Hk).
  assert (E : delete key m = ∅).
  { apply map_size_empty_iff. rewrite map_size_delete, Hk, Hs. reflexivity. }
  now rewrite E.
Qed.

(** X16: for options that validate with the strategy SimpleStrategy, the
    replication factors are the one entry "cluster", and the keyspace is
    declared with that factor, whatever the order of the iteration. *)
Theorem keyspaceDeclaration_simple (options : Options) :
  Options_Validate options = None ->
  ReplicationStrategy options = SimpleStrategy ->
  exists n,
    ReplicationFactors options = {[ "cluster" := n ]} /\
    forall ranged,
      keyspaceDeclaration ranged options =
      "CREATE KEYSPACE IF NOT EXISTS " +:+ Keyspace options
        +:+ " WITH REPLICATION = "
        +:+ "{ 'class': 'SimpleStrategy', 'replication_factor': "
        +:+ Itoa n +:+ " }".
Proof.
  intros Hv Hs. apply valid_of_Validate in Hv.
  destruct Hv as (_ & _ & _ & _ & [(_ & Hsize & [n Hn])|[Hnet _]] & _);
    [|rewrite Hs in Hnet; discriminate].
  exists n. split; [now apply singleton_of_size|].
  intros ranged. unfold keyspaceDeclaration. rewrite Hs, Hn. reflexivity.
Qed.



Section AnyDriver.

Context {D : Type} `{Driver D}.

(** X12: [Disconnect] on a store whose writers are all running stops the
    pool, then closes the driver and returns what [Close] returns; the
    operations still in the work queue stay there. After it every [Write]
    of a batch that is not empty is rejected, and a second [Disconnect]
    panics before it gets to the driver when the pool has a writer. *)
Theorem Disconnect_stops_writes (d : D) (w : World) :
  Forall (fun wr => stopChan wr = false) (writers (pool w)) ->
  exists w',
    LogStore_Disconnect d w =
      Returned (fst (Driver_Close d), snd (Driver_Close d), w') /\
    started (pool w') = false /\
    anyRunning (pool w') = false /\
    workChan (pool w') = workChan (pool w) /\
    (forall Execute options entries,
        entries <> [] ->
        exists w'',
          LogStore_Write Execute options entries w' =
          Returned (Some (InsertError writeRejected), w'')) /\
    (writers (pool w) <> [] ->
     forall d', LogStore_Disconnect d' w' = Panicked "close of closed channel").
Proof.
  intros Hrun. unfold LogStore_Disconnect, writerPool_stop.
  rewrite (PoolProofs.stopWriters_running _ Hrun). cbn [bind].
  destruct (Driver_Close d) as [err d1]. eexists. split; [reflexivity|].
  cbn [pool started workChan writers fst snd].
  split; [reflexivity|]. split; [|split; [reflexivity|split]].
  - unfold anyRunning. cbn [writers].
    induction (writers (pool w)) as [|wr ws IH]; [reflexivity|].
    cbn. apply IH. now inversion Hrun.
  - intros Execute options entries Hne.
    destruct entries as [|logEntry rest]; [contradiction|].
    unfold LogStore_Write.
    rewrite WriteMore.submitAll_stopped by reflexivity.
    cbn [bind length seq repeat].
    rewrite (WriteMore.awaitAll_filled Execute writeRejected);
      [eexists; reflexivity|].
    cbn [resultChans]. rewrite lookup_app_r by lia.
    now rewrite Nat.sub_diag.
  - intros Hne d'. cbn [pool writers].
    destruct (writers (pool w)) as [|wr ws]; [contradiction|].
    cbn [map]. now rewrite PoolProofs.stopWriters_closed.
Qed.

(** X14: [Connect] connects the driver, then executes the declaration of
    the keyspace, then that of the table, each without placeholders, and
    stops at the first of these calls that fails: the error of [Connect] is
    returned as it is, that of a declaration wrapped as a [SchemaError] that
    names the step. The calls are those recorded by a driver that keeps
    them; recording does not change the result. *)
Theorem Connect_protocol (ranged : list string) (options : Options) (d : D) :
  let keyspace := ExecuteCall (keyspaceDeclaration ranged options) [] in
  let table := ExecuteCall (tableDeclaration options) [] in
  let d1 := snd (Driver_Connect d) in
  let d2 := snd (Driver_Execute (keyspaceDeclaration ranged options) [] d1) in
  exists err d' calls,
    LogStore_Connect ranged options (d, []) = (err, (d', calls)) /\
    LogStore_Connect ranged options d = (err, d') /\
    ((calls = [ConnectCall] /\
      exists e, fst (Driver_Connect d) = Some e /\ err = Some e) \/
     (fst (Driver_Connect d) = None /\
      calls = [ConnectCall; keyspace] /\
      exists e,
        fst (Driver_Execute (keyspaceDeclaration ranged options) [] d1)
          = Some e /\
        err = Some (SchemaError "failed to create keyspace" e)) \/
     (fst (Driver_Connect d) = None /\
      calls = [ConnectCall; keyspace; table] /\
      exists e,
        fst (Driver_Execute (tableDeclaration options) [] d2) = Some e /\
        err = Some (SchemaError "failed to create log table" e)) \/
     (fst (Driver_Connect d) = None /\
      calls = [ConnectCall; keyspace; table] /\ err = None)).
Proof.
  cbv zeta. unfold LogStore_Connect, createSchemaIfNotExists,
    createKeyspaceIfNotExists, createTableIfNotExists.
  cbn [Driver_Connect Driver_Execute recording fst snd app].
  destruct (Driver_Connect d) as [[e|] d1] eqn:Ec.
  { do 3 eexists. split; [reflexivity|]. split; [reflexivity|].
    left. split; [reflexivity|]. exists e. now split. }
  cbn [fst snd app].
  destruct (Driver_Execute (keyspaceDeclaration ranged options) [] d1)
    as [[e|] d2] eqn:Ek.
  { do 3 eexists. split; [reflexivity|]. split; [reflexivity|].
    right; left. split; [reflexivity|]. split; [reflexivity|].
    exists e. now split. }
  cbn [fst snd app].
  destruct (Driver_Execute (tableDeclaration options) [] d2)
    as [[e|] d3] eqn:Et.
  { do 3 eexists. split; [reflexivity|]. split; [reflexivity|].
    right; right; left. split; [reflexivity|]. split; [reflexivity|].
    exists e. now split. }
  do 3 eexists. split; [reflexivity|]. split; [reflexivity|].
  right; right; right. now split.
Qed.

End AnyDriver.

End StoreProofs.

(** ** The gocql driver *)

Module CQLProofs.
Import Go GoTime cassandra Spec store.

Lemma Split_nonempty (query : logstore.Query) :
  exists sub post, Split query = sub :: post.
Proof.
  unfold Split. rewrite SplitterProofs.divideByDays_shape.
  destruct (eqb _ _); [cbn; eauto|].
  destruct (dayChain _ _); cbn; eauto.
Qed.

Lemma firstError_all (e : error) results :
  results <> [] -> Forall (fun r => r = Some e) results ->
  firstError results = Some e.
Proof.
  intros Hne HF. destruct HF as [|r rest -> _]; [contradiction|].
  reflexivity.
Qed.

Section CQL.

Variable ClusterConfig Session : Type.
Variable CreateSession : ClusterConfig -> result Session.
Variable Exec : Session -> string -> list value -> option error.
Variable SliceMap : Session -> string -> list value -> result CQLRows.
Variable IterClose : Session -> string -> list value -> option error.

#[local] Abbreviation CQLDriver := (CQLDriver ClusterConfig Session).
#[local] Abbreviation Connect :=
  (CQLDriver_Connect ClusterConfig Session CreateSession).
#[local] Abbreviation Execute :=
  (CQLDriver_Execute ClusterConfig Session Exec).
#[local] Abbreviation Query :=
  (CQLDriver_Query ClusterConfig Session SliceMap IterClose).

#[local] Abbreviation notConnected what :=
  (errorString ("cannot execute " +:+ what +:+ ": not connected to cassandra")).

(** Without a session every query and every write of the store fails. *)
Lemma no_session_fails (d : CQLDriver) (options : Options) :
  session _ _ d = None ->
  (forall query,
      LogStore_Query (Query d) options query =
      Returned (Err (QueryError "query execution" (notConnected "query")))) /\
  (forall entries w,
      running w -> entries <> [] ->
      exists w',
        LogStore_Write (Execute d) options entries w =
        Returned (Some (InsertError (notConnected "statement")), w')).
Proof.
  intros Hs. split.
  - intros query. destruct (Split_nonempty query) as (sub & post & HS).
    unfold LogStore_Query. rewrite HS. cbn [queryLoop].
    unfold executeQuery, CQLDriver_Query. now rewrite Hs.
  - intros entries w Hw Hne.
    destruct (WriteMore.Write_total (Execute d) options entries w Hw)
      as [w' Hw'].
    exists w'. rewrite Hw'. f_equal. f_equal.
    rewrite (firstError_all (notConnected "statement"));
      [reflexivity | now destruct entries |].
    apply Forall_map, Forall_forall. intros l _.
    unfold yield, CQLDriver_Execute. now rewrite Hs.
Qed.

(** X13: a driver that has not been connected, or whose last [Connect]
    failed, has no session: every [Query] of the store on it returns the
    [QueryError] of "cannot execute query: not connected to cassandra",
    and every [Write] of a batch that is not empty on a running pool the
    [InsertError] of "cannot execute statement: not connected to
    cassandra". *)
Theorem not_connected (d : CQLDriver) (options : Options) :
  (exists clusterConfig, d = NewCQLDriver ClusterConfig Session clusterConfig)
  \/ (exists d0 err, Connect d0 = (Some err, d)) ->
  session _ _ d = None /\
  (forall query,
      LogStore_Query (Query d) options query =
      Returned (Err (QueryError "query execution"
                       (errorString
                          "cannot execute query: not connected to cassandra"))))
  /\
  (forall entries w,
      running w -> entries <> [] ->
      exists w',
        LogStore_Write (Execute d) options entries w =
        Returned (Some (InsertError
                          (errorString
                             "cannot execute statement: not connected to cassandra")),
                  w')).
Proof.
  intros Hd.
  assert (Hs : session _ _ d = None).
  { destruct Hd as [[c ->]|(d0 & err & Hc)]; [reflexivity|].
    unfold CQLDriver_Connect in Hc.
    destruct (CreateSession (cluster _ _ d0)); [discriminate|].
    now injection Hc as _ <-. }
  split; [exact Hs|]. exact (no_session_fails d options Hs).
Qed.

(** X24: [Ready] does not tell whether the store is connected: on a driver
    that has never been connected, [Ready] reports the store healthy, with
    no error, whenever a session can be created on the cluster, and leaves
    the driver without a session, so that a [Write] that follows fails with
    "cannot execute statement: not connected to cassandra". *)
Theorem ready_without_session (clusterConfig : ClusterConfig) (s : Session)
    (options : Options) :
  CreateSession clusterConfig = Ok s ->
  let d := NewCQLDriver ClusterConfig Session clusterConfig in
  LogStore_Ready
    (H := CQLDriver_Driver ClusterConfig Session CreateSession Exec SliceMap
            IterClose) d = ((true, None), d) /\
  forall entries w,
    running w -> entries <> [] ->
    exists w',
      LogStore_Write (Execute d) options entries w =
      Returned (Some (InsertError
                        (errorString
                           "cannot execute statement: not connected to cassandra")),
                w').
Proof.
  intros Hc d. split.
  - unfold LogStore_Ready. cbn [Driver_Reachable CQLDriver_Driver].
    unfold CQLDriver_Reachable. cbn [cluster d NewCQLDriver]. now rewrite Hc.
  - apply (no_session_fails d options eq_refl).
Qed.

End CQL.

End CQLProofs.

(** ** More on the HTTP adapter *)

Module HandlerProofs.
Import Go GoTime cassandra server Spec writeapi.

Lemma validateEntries_None entries :
  validateEntries entries = None <->
  Forall (fun l => logstore.LogEntry_Validate l = None) entries.
Proof.
  induction entries as [|l rest IH]; cbn [validateEntries].
  - split; constructor.
  - destruct (logstore.LogEntry_Validate l) eqn:E.
    + split; [discriminate | intros HF; inversion HF; congruence].
    + rewrite IH. split; [now constructor | intros HF; now inversion HF].
Qed.

Lemma validateEntries_first pre l post err :
  Forall (fun l => logstore.LogEntry_Validate l = None) pre ->
  logstore.LogEntry_Validate l = Some err ->
  validateEntries (pre ++ l :: post) = Some err.
Proof.
  induction 1 as [|l0 pre E _ IH]; intros Hl; cbn [app validateEntries].
  - now rewrite Hl.
  - rewrite E. now apply IH.
Qed.

Section Post.

Variable Decode : string -> result (list logstore.LogEntry).
Variable s : LogWriter.

#[local] Abbreviation writePostHandler := (writePostHandler Decode s).

(** X17: [POST /write] asks the store to write only a batch that was
    decoded from the body and whose entries all validate, only after
    [Ready] has returned no error, and at most once; it answers 200, with
    no body, exactly when decoding, validation, [Ready] and [Write] all
    succeed, and with one of 400, 503 and 500 otherwise. *)
Theorem writePostHandler_discipline (requestBody : string) :
  let response := fst (writePostHandler requestBody) in
  let calls := snd (writePostHandler requestBody) in
  (forall entries,
      In (OpWrite entries) calls ->
      Decode requestBody = Ok entries /\
      Forall (fun l => logstore.LogEntry_Validate l = None) entries /\
      snd (wReady s) = None /\
      calls = [OpReady; OpWrite entries]) /\
  (wStatusCode response = 200 <->
   exists entries,
     Decode requestBody = Ok entries /\
     Forall (fun l => logstore.LogEntry_Validate l = None) entries /\
     snd (wReady s) = None /\
     Write s entries = None) /\
  (wStatusCode response = 200 -> wBody response = NoBody) /\
  In (wStatusCode response) [200; 400; 503; 500].
Proof.
  cbv zeta. unfold writeapi.writePostHandler.
  destruct (Decode requestBody) as [entries|err] eqn:Ed.
  2:{ cbn. split; [intros ? []|]. split; [|split; [discriminate | tauto]].
      split; [discriminate | intros (? & ? & _); discriminate]. }
  destruct (validateEntries entries) as [err|] eqn:Ev.
  { cbn. split; [intros ? []|]. split; [|split; [discriminate | tauto]].
    split; [discriminate|]. intros (es & [= <-] & HF & _).
    apply validateEntries_None in HF. congruence. }
  apply validateEntries_None in Ev.
  destruct (snd (wReady s)) as [err|] eqn:Er.
  { cbn. split; [intros ? [|[]]; discriminate|].
    split; [|split; [discriminate | tauto]].
    split; [discriminate | intros (? & _ & _ & ? & _); discriminate]. }
  destruct (Write s entries) as [err|] eqn:Ew.
  - cbn. split.
    + intros es [|[[= <-]|[]]]; [discriminate|]. tauto.
    + split; [|split; [discriminate | tauto]].
      split; [discriminate|]. intros (es & [= <-] & _ & _ & ?). congruence.
  - cbn. split.
    + intros es [|[[= <-]|[]]]; [discriminate|]. tauto.
    + split; [|split; [reflexivity | tauto]].
      split; [|reflexivity]. intros _. now exists entries.
Qed.

(** X18: a batch is stored whole or not at all: when an entry of the
    decoded batch does not validate, [POST /write] answers 400 with the
    message "invalid log entry" and the error of the first such entry, and
    makes no call on the store, not even [Ready]. *)
Theorem invalid_entry_rejects_batch (requestBody : string)
    (pre post : list logstore.LogEntry) (l : logstore.LogEntry) (err : error) :
  Decode requestBody = Ok (pre ++ l :: post) ->
  Forall (fun l => logstore.LogEntry_Validate l = None) pre ->
  logstore.LogEntry_Validate l = Some err ->
  writePostHandler requestBody =
  (mkWriteResponse 400 (Some "application/json")
     (FailureBody (logstore.mkAPIError "invalid log entry" (Error err))),
   []).
Proof.
  intros Hd Hpre Hl. unfold writeapi.writePostHandler.
  now rewrite Hd, (validateEntries_first _ _ _ _ Hpre Hl).
Qed.

End Post.

Section Get.

Variable Parse : string -> option Time.
Variable now : Time.
Variable s : LogStore.

#[local] Abbreviation queryFromRequest := (queryFromRequest Parse now).
#[local] Abbreviation queryGetHandler := (queryGetHandler Parse now s).


(** X20: [end_time] is optional: when the four required parameters are
    each given once and the start time parses, a request that gives
    [end_time] not at all, or more than once, is read as a query that ends
    at the current time. A repeated [end_time] is not an error, unlike a
    repeated required parameter. *)
Theorem end_time_defaults_to_now (r : Request)
    (namespace podName containerName startTimeStr : string)
    (startTime : Time) :
  URLQuery r !! "namespace" = Some [namespace] ->
  URLQuery r !! "pod_name" = Some [podName] ->
  URLQuery r !! "container_name" = Some [containerName] ->
  URLQuery r !! "start_time" = Some [startTimeStr] ->
  Parse startTimeStr = Some startTime ->
  (URLQuery r !! "end_time" = None \/
   exists values, URLQuery r !! "end_time" = Some values /\
                  length values <> 1%nat) ->
  queryFromRequest r =
  Ok (logstore.mkQuery namespace podName containerName startTime now).
Proof.
  intros H1 H2 H3 H4 Hp He. unfold server.queryFromRequest.
  rewrite (HttpProofs.getQueryParam_single _ _ _ H1),
    (HttpProofs.getQueryParam_single _ _ _ H2),
    (HttpProofs.getQueryParam_single _ _ _ H3),
    (HttpProofs.getQueryParam_single _ _ _ H4), Hp.
  assert (Hend : exists err, getQueryParam "end_time" r = Err err).
  { unfold getQueryParam. destruct He as [->|(values & -> & Hn)]; [eauto|].
    unfold len. destruct (Z.eqb_spec (Z.of_nat (length values)) 1); [lia|].
    cbn [negb]. eauto. }
  destruct Hend as [err ->]. reflexivity.
Qed.

(** X21: when a required parameter is absent and the parameters read
    before it are each given once, [GET /query] answers 400 with the
    message "invalid query" and the detail "missing query parameter: "
    followed by the name, and does not call the store. *)
Theorem missing_parameter_rejected (r : Request) (name : string) :
  In name requiredParams ->
  URLQuery r !! name = None ->
  Forall (fun p => exists v, URLQuery r !! p = Some [v])
         (readBefore name requiredParams) ->
  queryGetHandler r =
  (mkResponse 400 "application/json"
     (ErrorBody (logstore.mkAPIError "invalid query"
                   ("missing query parameter: " +:+ name))),
   []).
Proof.
  intros Hin Hv Hbefore.
  assert (Hg : getQueryParam name r
               = Err (errorString ("missing query parameter: " +:+ name)))
    by (unfold getQueryParam; now rewrite Hv).
  assert (Herr : queryFromRequest r
                 = Err (errorString ("missing query parameter: " +:+ name))).
  { unfold server.queryFromRequest, requiredParams in *. cbn [In] in Hin.
    destruct Hin as [<-|[<-|[<-|[<-|[]]]]]; cbn in Hbefore;
      repeat match goal with
             | H : Forall _ (_ :: _) |- _ =>
                 apply Forall_cons in H as [[? ?] H]
             end;
      repeat match goal with
             | H : URLQuery r !! ?p = Some [_] |- _ =>
                 rewrite (HttpProofs.getQueryParam_single _ _ _ H); clear H
             end;
      now rewrite Hg. }
  rewrite (HttpProofs.queryGetHandler_invalid _ _ _ _ _ Herr). reflexivity.
Qed.

End Get.

End HandlerProofs.

(** ** More on the metrics middleware *)

Module MetricsMore.
Import Go GoTime server Spec Terms.

Section Metrics.

Variable float64 : Type.
Variable fzero : float64.
Variable fadd : float64 -> float64 -> float64.
Variable fdiv : float64 -> float64 -> float64.
Variable float64_of_int64 : Z -> float64.

#[local] Abbreviation Intercept :=
  (Intercept float64 fzero fadd fdiv float64_of_int64).
#[local] Abbreviation observeAll :=
  (observeAll float64 fzero fadd fdiv float64_of_int64).
#[local] Abbreviation NewMetricsMiddleware := (NewMetricsMiddleware float64).
#[local] Abbreviation Completion := (Completion float64).

#[local] Abbreviation tracked := (tracked float64).
#[local] Abbreviation untracked := (untracked float64).

Lemma Intercept_tracks mw (c : Completion) :
  tracked (Intercept mw c) (dimensions float64 c).
Proof.
  unfold Terms.tracked, server.Intercept. cbv zeta.
  cbn [TotalRequests SumResponseTime AvgResponseTime].
  rewrite !lookup_insert_eq. eauto.
Qed.

(** X22: whatever the number of requests, the three metrics always have
    the same series: after any sequence of completed requests a dimension
    triple has an entry in all three maps when some request had these
    dimensions, and in none of them otherwise. *)
Theorem metrics_same_series (cs : list Completion) (d : MetricDimensions) :
  let mw := observeAll NewMetricsMiddleware cs in
  (withDimensions float64 d cs <> [] -> tracked mw d) /\
  (withDimensions float64 d cs = [] -> untracked mw d).
Proof.
  cbv zeta. induction cs as [|c cs IH] using rev_ind.
  - split; [intros H; now destruct H|]. intros _.
    repeat split; apply lookup_empty.
  - rewrite (MetricsProofs.observeAll_snoc float64 fzero fadd fdiv
               float64_of_int64).
    rewrite MetricsProofs.withDimensions_snoc.
    destruct (bool_decide (dimensions float64 c = d)) eqn:Ed.
    + apply bool_decide_eq_true in Ed. subst d. split.
      * intros _. apply Intercept_tracks.
      * intros E. symmetry in E. now apply app_cons_not_nil in E.
    + apply bool_decide_eq_false in Ed. rewrite app_nil_r.
      destruct (MetricsProofs.Intercept_other float64 fzero fadd fdiv
                  float64_of_int64 (observeAll NewMetricsMiddleware cs) c d)
        as (Ht & Hs & Ha); [congruence|].
      unfold Terms.tracked, Terms.untracked. rewrite Ht, Hs, Ha. exact IH.
Qed.

(** X23: two completed requests with different dimensions can be recorded
    in either order: the three maps end up the same. *)
Theorem Intercept_commutes mw (c1 c2 : Completion) :
  dimensions float64 c1 <> dimensions float64 c2 ->
  Intercept (Intercept mw c1) c2 = Intercept (Intercept mw c2) c1.
Proof.
  intros Hne. unfold server.Intercept. cbv zeta.
  cbn [TotalRequests SumResponseTime AvgResponseTime].
  set (d1 := dimensions float64 c1) in *.
  set (d2 := dimensions float64 c2) in *.
  assert (Hne' : d2 <> d1) by congruence.
  destruct (TotalRequests float64 mw !! d1) as [n1|] eqn:Et1;
    destruct (TotalRequests float64 mw !! d2) as [n2|] eqn:Et2;
    destruct (SumResponseTime float64 mw !! d1) as [x1|] eqn:Es1;
    destruct (SumResponseTime float64 mw !! d2) as [x2|] eqn:Es2;
    repeat (rewrite ?lookup_insert_eq, ?Et1, ?Et2, ?Es1, ?Es2;
            rewrite ?lookup_insert_ne by congruence);
    rewrite ?lookup_insert_eq, ?Et1, ?Et2, ?Es1, ?Es2;
    cbn [default];
    f_equal; apply map_eq; intros d;
    destruct (decide (d = d1)) as [E1|N1];
    destruct (decide (d = d2)) as [E2|N2]; try congruence; try subst d;
    repeat (rewrite ?lookup_insert_eq;
            rewrite ?lookup_insert_ne by congruence);
    rewrite ?lookup_insert_eq; reflexivity.
Qed.

End Metrics.

End MetricsMore.

(** ** The statements and the rows *)

Module StatementProofs.
Import Go GoTime cassandra Spec Terms.

Lemma countChar_app c (a b : string) :
  countChar c (a +:+ b) = (countChar c a + countChar c b)%nat.
Proof.
  induction a as [|x a IH]; [reflexivity|].
  change (countChar c (String x (a +:+ b)) =
          (countChar c (String x a) + countChar c b)%nat).
  cbn [countChar]. rewrite IH. lia.
Qed.

(** X25: the statements bind as many values as they have placeholders:
    when the names of the keyspace and of the table hold no "?", the insert
    statement has one "?" for each of the eleven values that [insert] binds
    for an entry, and the query statement one for each of the six values
    that [executeQuery] binds for a sub-query. *)
Theorem placeholders_match_values (options : Options)
    (logEntry : logstore.LogEntry) (query : logstore.Query) :
  countChar placeholder (Keyspace options) = O ->
  countChar placeholder (LogTableName options) = O ->
  countChar placeholder (LogStore_insertStatement options)
    = length (insertArgs logEntry) /\
  countChar placeholder (logQueryStatement options)
    = length (queryArgs query).
Proof.
  intros Hk Ht. unfold LogStore_insertStatement, logQueryStatement.
  rewrite !countChar_app, Hk, Ht. split; reflexivity.
Qed.

Lemma toLogRows_wellFormed results :
  Forall wellFormed results ->
  toLogRows results = Returned (map readRow results).
Proof.
  induction 1 as [|row rest (t & s & Ht & Hs) _ IH]; [reflexivity|].
  cbn [toLogRows map]. unfold toLogRow, readRow.
  rewrite Ht, Hs, IH. reflexivity.
Qed.

Section Rows.

Variable DriverQuery :
  string -> list value -> result (list (gmap string value)).
Variable options : Options.

(** X26: when the driver answers every sub-query with rows that have a
    [time.Time] under "time" and a string under "message", [Query] returns,
    and its result holds exactly the time and the message of each row of
    the driver, none dropped, repeated or moved: the rows of each sub-query
    in the order of the driver, the sub-queries in the order of [Split]. *)
Theorem Query_returns_driver_rows (query : logstore.Query)
    (resultss : list (list (gmap string value))) :
  Forall2 (fun sub results =>
             DriverQuery (logQueryStatement options) (queryArgs sub)
               = Ok results /\
             Forall wellFormed results)
          (Split query) resultss ->
  LogStore_Query DriverQuery options query =
  Returned (Ok (logstore.mkQueryResult (map readRow (concat resultss)))).
Proof.
  intros HF. unfold LogStore_Query.
  rewrite (QueryProofs.queryLoop_concat DriverQuery options (Split query)
             (map (map readRow) resultss) []).
  - cbn [bind app]. now rewrite concat_map.
  - apply Forall2_fmap_r. eapply Forall2_impl; [exact HF|].
    intros sub results [Hd Hw]. exists results.
    split; [exact Hd | now apply toLogRows_wellFormed].
Qed.

End Rows.

End StatementProofs.

(** ** Instances of the further theorems *)

Module MoreWitnesses.
Import Go GoTime cassandra server Spec store writeapi Terms.

Lemma divideByDays_splits_iff_witness :
  splitsByDays beforeMidnight afterMidnight
    (divideByDays (mkPeriod beforeMidnight afterMidnight)).
Proof.
  apply (SplitterMore.divideByDays_splits_iff
           (mkPeriod beforeMidnight afterMidnight)).
  - vm_compute. intros H; discriminate.
  - left. reflexivity.
Defined.

Lemma Split_valid_query_witness :
  Z.of_nat (length (Split borderQuery)) = 2 /\
  chronological (map window (Split borderQuery)).
Proof.
  destruct (SplitterMore.Split_valid_query borderQuery)
    as (H1 & _ & H3 & _).
  - reflexivity.
  - left. reflexivity.
  - split; [exact H1 | exact H3].
Defined.

Lemma query_reads_partition_of_entry_witness :
  exists sub,
    In sub (Split borderQuery) /\
    take 4 (queryArgs sub) = take 4 (insertArgs borderEntry).
Proof.
  destruct (SplitterMore.query_reads_partition_of_entry borderQuery
              borderEntry) as ((sub & Hin & Hx) & Hall);
    try reflexivity.
  - vm_compute. split; intros H; discriminate.
  - exists sub. split; [exact Hin | exact (Hall sub Hin Hx)].
Defined.

Lemma offset_entry_missed_witness :
  In secondDay (Split borderQuery) /\
  inPeriod (instant (logstore.Time_ offsetEntry)) (window secondDay) /\
  queryArgs secondDay !! 3%nat <> insertArgs offsetEntry !! 3%nat.
Proof.
  assert (Hin : In secondDay (Split borderQuery))
    by (vm_compute; right; left; reflexivity).
  assert (Hx : inPeriod (instant (logstore.Time_ offsetEntry))
                        (window secondDay))
    by (vm_compute; split; intros H; discriminate).
  split; [exact Hin|]. split; [exact Hx|].
  apply (SplitterMore.offset_entry_missed borderQuery offsetEntry);
    [reflexivity | reflexivity | | exact Hin | exact Hx].
  vm_compute. intros H; discriminate.
Defined.

Lemma Query_fails_on_first_error_witness :
  LogStore_Query refusedAfterMidnight someOptions borderQuery =
  Returned (Err (QueryError "query execution"
                   (errorString "connection refused"))).
Proof.
  destruct (QueryMore.Query_fails_on_first_error refusedAfterMidnight
              someOptions borderQuery secondDay [firstDay] []
              [[logstore.mkLogRow (Add beforeMidnight (10 * Second)) "event 1"]]
              (errorString "connection refused")) as [H _].
  - vm_compute. reflexivity.
  - constructor; [|constructor].
    exists [cqlRow (Add beforeMidnight (10 * Second)) "event 1"].
    split; vm_compute; reflexivity.
  - vm_compute. reflexivity.
  - exact H.
Defined.

Lemma Query_panics_on_malformed_row_witness :
  exists msg,
    LogStore_Query timelessDriver someOptions borderQuery = Panicked msg.
Proof.
  apply (QueryMore.Query_panics_on_malformed_row timelessDriver someOptions
           borderQuery firstDay [] [secondDay] []
           [{[ "message" := StringValue "event 1" ]}]).
  - vm_compute. reflexivity.
  - constructor.
  - reflexivity.
  - constructor. left. intros t. vm_compute. intros H; discriminate.
Defined.

Lemma Write_rejected_after_stop_witness :
  exists w',
    LogStore_Write refusing someOptions twoEntries stoppedWorld =
      Returned (Some (InsertError writeRejected), w') /\
    pool w' = pool stoppedWorld /\
    received w' = [O].
Proof.
  apply (WriteMore.Write_rejected_after_stop refusing someOptions twoEntries
           stoppedWorld).
  - reflexivity.
  - discriminate.
Defined.

Lemma Write_without_writers_blocks_witness :
  LogStore_Write refusing someOptions twoEntries (freshWorld 0 1024) = Blocked.
Proof.
  apply (WriteMore.Write_without_writers_blocks refusing someOptions
           twoEntries (freshWorld 0 1024)).
  - reflexivity.
  - reflexivity.
  - discriminate.
Defined.


Lemma Disconnect_stops_writes_witness :
  exists w',
    LogStore_Disconnect (H := nilDriver) tt (freshWorld 2 1024) =
      Returned (None, tt, w') /\
    started (pool w') = false.
Proof.
  destruct (StoreProofs.Disconnect_stops_writes (H := nilDriver) tt
              (freshWorld 2 1024)) as (w' & H1 & H2 & _).
  - repeat constructor.
  - exists w'. split; [exact H1 | exact H2].
Defined.

Lemma not_connected_witness :
  LogStore_Query
    (CQLDriver_Query unit unit (fun _ _ _ => Ok []) (fun _ _ _ => None)
                     (NewCQLDriver unit unit tt))
    someOptions borderQuery =
  Returned (Err (QueryError "query execution"
                   (errorString
                      "cannot execute query: not connected to cassandra"))).
Proof.
  destruct (CQLProofs.not_connected unit unit noSession (fun _ _ _ => None)
              (fun _ _ _ => Ok []) (fun _ _ _ => None)
              (NewCQLDriver unit unit tt) someOptions) as (_ & H & _).
  - left. exists tt. reflexivity.
  - apply H.
Defined.

Lemma ready_without_session_witness :
  LogStore_Ready
    (H := CQLDriver_Driver unit unit (fun _ => Ok tt) (fun _ _ _ => None)
            (fun _ _ _ => Ok []) (fun _ _ _ => None))
    (NewCQLDriver unit unit tt) =
  ((true, None), NewCQLDriver unit unit tt).
Proof.
  destruct (CQLProofs.ready_without_session unit unit (fun _ => Ok tt)
              (fun _ _ _ => None) (fun _ _ _ => Ok []) (fun _ _ _ => None)
              tt tt someOptions) as [H _].
  - reflexivity.
  - exact H.
Defined.

Lemma ReplicationFactorMap_String_sorted_witness :
  ReplicationFactorMap_String ["dc1"; "dc2"] twoDatacenters =
  ReplicationFactorMap_String ["dc2"; "dc1"] twoDatacenters.
Proof.
  destruct (SchemaProofs.ReplicationFactorMap_String_sorted twoDatacenters
              ["dc2"; "dc1"]) as [_ H].
  - vm_compute. apply perm_swap.
  - apply H. vm_compute. reflexivity.
Defined.

Lemma keyspaceDeclaration_simple_witness :
  exists n, ReplicationFactors someOptions = {[ "cluster" := n ]}.
Proof.
  destruct (StoreProofs.keyspaceDeclaration_simple someOptions)
    as (n & H & _).
  - reflexivity.
  - reflexivity.
  - exists n. exact H.
Defined.

Lemma invalid_entry_rejects_batch_witness :
  writePostHandler decodeBatch acceptingStore "[]" =
  (mkWriteResponse 400 (Some "application/json")
     (FailureBody
        (logstore.mkAPIError "invalid log entry"
                             "log entry missing namespace field")),
   []).
Proof.
  apply (HandlerProofs.invalid_entry_rejects_batch decodeBatch acceptingStore
           "[]" [entryAt oneUTC "event 1"] [entryAt oneUTC "event 3"]
           namelessEntry (errorString "log entry missing namespace field")).
  - reflexivity.
  - constructor; [reflexivity | constructor].
  - reflexivity.
Defined.

Lemma end_time_defaults_to_now_witness :
  queryFromRequest parseOne afterMidnight twiceEndTime =
  Ok (logstore.mkQuery "default" "nginx-abcde" "nginx" oneUTC afterMidnight).
Proof.
  apply (HandlerProofs.end_time_defaults_to_now parseOne afterMidnight
           twiceEndTime "default" "nginx-abcde" "nginx"
           "2018-01-01T13:00:00Z" oneUTC).
  - vm_compute. reflexivity.
  - vm_compute. reflexivity.
  - vm_compute. reflexivity.
  - vm_compute. reflexivity.
  - reflexivity.
  - right. exists ["2018-01-01T14:00:00Z"; "2018-01-01T15:00:00Z"].
    split; [vm_compute; reflexivity | discriminate].
Defined.

Lemma missing_parameter_rejected_witness :
  queryGetHandler parseNothing oneUTC readyStore noPodName =
  (mkResponse 400 "application/json"
     (ErrorBody (logstore.mkAPIError "invalid query"
                   "missing query parameter: pod_name")),
   []).
Proof.
  apply (HandlerProofs.missing_parameter_rejected parseNothing oneUTC
           readyStore noPodName "pod_name").
  - right. left. reflexivity.
  - vm_compute. reflexivity.
  - constructor; [|constructor]. exists "default". vm_compute. reflexivity.
Defined.

Lemma Intercept_commutes_witness :
  Intercept Q 0%Q Qplus Qdiv inject_Z
    (Intercept Q 0%Q Qplus Qdiv inject_Z (NewMetricsMiddleware Q) writeDone)
    queryDone =
  Intercept Q 0%Q Qplus Qdiv inject_Z
    (Intercept Q 0%Q Qplus Qdiv inject_Z (NewMetricsMiddleware Q) queryDone)
    writeDone.
Proof.
  apply (MetricsMore.Intercept_commutes Q 0%Q Qplus Qdiv inject_Z
           (NewMetricsMiddleware Q) writeDone queryDone).
  vm_compute. intros H; discriminate.
Defined.

Lemma placeholders_match_values_witness :
  countChar placeholder (LogStore_insertStatement someOptions) = 11%nat /\
  countChar placeholder (logQueryStatement someOptions) = 6%nat.
Proof.
  apply (StatementProofs.placeholders_match_values someOptions borderEntry
           borderQuery); reflexivity.
Defined.

Lemma Query_returns_driver_rows_witness :
  LogStore_Query borderDriver someOptions borderQuery =
  Returned (Ok (logstore.mkQueryResult (concat borderRows))).
Proof.
  apply (StatementProofs.Query_returns_driver_rows borderDriver someOptions
           borderQuery
           [[cqlRow (Add beforeMidnight (10 * Second)) "event 1";
             cqlRow (Add beforeMidnight (20 * Second)) "event 2"];
            [cqlRow (Add afterMidnight (-30 * Second)) "event 3"]]).
  assert (HS : Split borderQuery = [firstDay; secondDay])
    by (vm_compute; reflexivity).
  rewrite HS.
  constructor; [|constructor; [|constructor]].
  - split; [vm_compute; reflexivity|].
    constructor; [|constructor; [|constructor]];
      eexists; eexists; split; vm_compute; reflexivity.
  - split; [vm_compute; reflexivity|].
    constructor; [|constructor];
      eexists; eexists; split; vm_compute; reflexivity.
Defined.

End MoreWitnesses.
